(** * AgentTrainer: training on a substituted reward while recording true rewards

    A shallow embedding of [src/imitation/policies/trainer.py].

    [AgentTrainer] takes a training algorithm whose environment is a
    vectorized environment, wraps that environment first in a
    [BufferingWrapper] (which records trajectories) and then in a
    [RewardVecEnvWrapper] (which replaces the reward by the output of a
    reward function), and rebinds the algorithm to the outer wrapper.
    [train] resets the wrapped chain, lets the algorithm learn, and pops the
    recorded trajectories.

    Python objects live in a store and are referred to by location, so that
    the three aliases of the wrapper chain (the trainer's [venv] and
    [buffering_wrapper] attributes and the algorithm's environment) denote
    the same mutable objects.  Methods are computations in a state monad
    in which a raised exception keeps the state reached so far. *)

From Stdlib Require Import String List Arith ZArith Lia Bool.
From Stdlib Require Import FunctionalExtensionality.
Import ListNotations.

Local Open Scope string_scope.

(** ** Exceptions and results *)

Record exn := Exn { exn_class : string; exn_msg : string }.

Definition ValueError (msg : string) : exn := Exn "ValueError" msg.
Definition AttributeError (msg : string) : exn := Exn "AttributeError" msg.
Definition AssertionError (msg : string) : exn := Exn "AssertionError" msg.

Arguments ValueError msg%_string.
Arguments AttributeError msg%_string.
Arguments AssertionError msg%_string.

Local Close Scope string_scope.

Inductive result (A : Type) : Type :=
| Ok (a : A)
| Raise (e : exn).

Arguments Ok {A} a.
Arguments Raise {A} e.

(** The value a computation returned, [d] when it raised. *)
Definition value_or {A} (d : A) (r : result A) : A :=
  match r with
  | Ok a => a
  | Raise _ => d
  end.

(** Object references are store locations. *)
Definition loc := nat.

(** An array with one entry per sub-environment, indexed by the number of
    the sub-environment. *)
Definition batch (X : Type) : Type := nat -> X.

(** ** Data *)

Section Data.

(** Observations, actions, rewards and info records are opaque to the
    trainer: it only passes them around. *)
Context {Obs Act Rew Info : Type}.

(** The internal state of an external vectorized environment, and the policy
    object and internal state of the training algorithm. *)
Context {EnvSt Policy AlgSt : Type}.

(** What [VecEnv.step] returns: N observations, rewards, done flags and
    info records. *)
Record step_out := StepOut {
  so_obs : batch Obs;
  so_rews : batch Rew;
  so_dones : batch bool;
  so_infos : batch Info
}.

(** Ghost history of a vectorized environment: what its successful [reset]
    and [step] calls returned to their callers.  No operation reads it. *)
Inductive event :=
| EvReset (obs : batch Obs)
| EvStep (acts : batch Act) (out : step_out).

(** [RewardFn]: (obs, acts, next_obs, dones) to a batch of rewards. *)
Definition RewardFn : Type :=
  batch Obs -> batch Act -> batch Obs -> batch bool -> result (batch Rew).

(** [RewardNet]: a reward model; [predict] has the [RewardFn] signature. *)
Record RewardNet := { predict : RewardFn }.

(** The argument [reward_fn: Union[RewardFn, RewardNet]] of [__init__]. *)
Inductive reward_source :=
| IsRewardFn (f : RewardFn)
| IsRewardNet (net : RewardNet).

(** [types.TrajectoryWithRew].  [traj_id] stands for the identity of the
    Python object: two trajectory objects with equal contents are still two
    objects. *)
Record TrajectoryWithRew := Trajectory {
  traj_id : nat;
  traj_obs : list Obs;
  traj_acts : list Act;
  traj_rews : list Rew;
  traj_infos : list Info;
  traj_terminal : bool
}.

(** The running episode of one sub-environment. *)
Record partial := Partial {
  p_obs : list Obs;
  p_acts : list Act;
  p_rews : list Rew;
  p_infos : list Info
}.

(** Modelled from the spec: [wrappers.BufferingWrapper] (the spec's
    TrajectoryBuffer) is not among the sources.  It wraps a vectorized
    environment, forwards reset and step, accumulates per sub-environment
    index the running episode until a done flag is observed, then finalizes
    a trajectory and enqueues it; draining returns and clears the queue.
    [bw_next_id] numbers the trajectory objects it creates. *)
Record BufferingWrapper := {
  bw_venv : loc;
  bw_accum : list partial;
  bw_trajectories : list TrajectoryWithRew;
  bw_next_id : nat
}.

(** Modelled from the spec: [reward_wrapper.RewardVecEnvWrapper] (the spec's
    RewardSubstitutionLayer) is not among the sources.  It wraps a
    vectorized environment and holds the bound reward function.
    [rw_old_obs] is the current observation, absent before the first reset;
    [rw_calls] is a ghost count of the evaluations of the reward
    function. *)
Record RewardVecEnvWrapper := {
  rw_venv : loc;
  rw_reward_fn : RewardFn;
  rw_old_obs : option (batch Obs);
  rw_calls : nat
}.

Inductive vec_env :=
| ExternalVecEnv (s : EnvSt)
| Buffering (b : BufferingWrapper)
| RewardWrap (w : RewardVecEnvWrapper).

(** An object is an instance of [vec_env.VecEnv], with its ghost history, or
    something else. *)
Inductive obj :=
| VecEnv (e : vec_env) (hist : list event)
| NotVecEnv.

(** The newest object comes first; the object at location [l] is the one
    with [l] objects below it.  A wrapper is allocated after the environment
    it wraps and its [venv] attribute is never reassigned, so the wrapped
    object lies in the older part of the store. *)
Definition store := list obj.

(** The [BaseAlgorithm] object the trainer is built around: its environment
    ([get_env], [set_env]), its [policy] attribute and the rest of its
    state. *)
Record algorithm := {
  alg_env : option loc;
  alg_policy : Policy;
  alg_state : AlgSt
}.

(** The procedure [learn] of the algorithm is supplied from outside.  It is
    a strategy that resets and steps the algorithm's environment, sees what
    these calls return or raise, and ends by returning or raising with an
    updated policy and state. *)
Inductive prog :=
| Return (p : Policy) (s : AlgSt)
| Throw (e : exn) (p : Policy) (s : AlgSt)
| EnvReset (k : result (batch Obs) -> prog)
| EnvStep (acts : batch Act) (k : result step_out -> prog).

Record world := { heap : store; algo : algorithm }.

(** Computations: a raised exception keeps the world reached so far. *)
Definition M (A : Type) : Type := world -> result A * world.

(** The attributes set by [__init__]; [self.algorithm] is the algorithm of
    the world. *)
Record AgentTrainer := {
  reward_fn : RewardFn;
  buffering_wrapper : loc;
  venv : loc
}.

(** What a caller can do with a trainer. *)
Inductive op (Kwargs : Type) :=
| OpTrain (total_timesteps : Z) (kwargs : Kwargs)
| OpPop
| OpPolicy.

End Data.

Arguments OpTrain {Kwargs} total_timesteps kwargs.
Arguments OpPop {Kwargs}.
Arguments OpPolicy {Kwargs}.

(** ** A small instance

    Two sub-environments; sub-environment [i] ends an episode every [i + 2]
    steps and pays the step number plus [i].  The algorithm resets, then
    steps [total_timesteps] times with action [0] and returns the next
    policy.  The reward function pays 100. *)

Module Demo.

Definition env_reset (s : nat) : result (batch nat) * nat :=
  (Ok (fun _ => 0), 0).

Definition env_step (s : nat) (acts : batch nat)
  : result (@step_out nat Z unit) * nat :=
  (Ok {| so_obs := fun _ => S s;
         so_rews := fun i => Z.of_nat (s + i);
         so_dones := fun i => S s mod (i + 2) =? 0;
         so_infos := fun _ => tt |},
   S s).

Fixpoint steps (n : nat) (pol : nat)
  : @prog nat nat Z unit nat unit :=
  match n with
  | O => Return (S pol) tt
  | S n' =>
    EnvStep (fun _ => 0)
            (fun r => match r with
                      | Ok _ => steps n' pol
                      | Raise e => Throw e pol tt
                      end)
  end.

Definition learn (pol : nat) (st : unit) (total_timesteps : Z) (kw : unit)
  : @prog nat nat Z unit nat unit :=
  EnvReset (fun _ => steps (Z.to_nat total_timesteps) pol).

(** An algorithm that gives up after its first step. *)
Definition learn_fails (pol : nat) (st : unit) (total_timesteps : Z)
           (kw : unit) : @prog nat nat Z unit nat unit :=
  EnvStep (fun _ => 0)
          (fun _ => EnvStep (fun _ => 0)
                            (fun _ => Throw (Exn "RuntimeError" "nan") pol tt)).

Definition hundred : @RewardFn nat nat Z :=
  fun _ _ _ _ => Ok (fun _ => 100%Z).

Definition broken : @RewardFn nat nat Z :=
  fun _ _ _ _ => Raise (Exn "RuntimeError" "reward").

Definition w0 : @world nat nat Z unit nat nat unit :=
  {| heap := [VecEnv (ExternalVecEnv 0) []];
     algo := {| alg_env := Some 0; alg_policy := 7; alg_state := tt |} |}.

(** The trainer that [__init__] builds in [w0]. *)
Definition self : @AgentTrainer nat nat Z :=
  {| reward_fn := hundred; buffering_wrapper := 1; venv := 2 |}.

(** No environment is set. *)
Definition w_unset : @world nat nat Z unit nat nat unit :=
  {| heap := [VecEnv (ExternalVecEnv 0) []];
     algo := {| alg_env := None; alg_policy := 7; alg_state := tt |} |}.

(** The environment is not vectorized. *)
Definition w_single : @world nat nat Z unit nat nat unit :=
  {| heap := [NotVecEnv];
     algo := {| alg_env := Some 0; alg_policy := 7; alg_state := tt |} |}.



(** A reward model that predicts 50 + 50. *)
Definition net : @RewardNet nat nat Z :=
  {| predict := fun _ _ _ _ => Ok (fun _ => (50 + 50)%Z) |}.

(** The trainer that [__init__] builds in [w0] from that model. *)
Definition self_net : @AgentTrainer nat nat Z :=
  {| reward_fn := predict net; buffering_wrapper := 1; venv := 2 |}.

(** An environment whose reset is out of order. *)
Definition env_reset_fails (s : nat) : result (batch nat) * nat :=
  (Raise (Exn "RuntimeError" "reset"), s).

End Demo.

(** ** Operations *)

Section Trainer.

Context {Obs Act Rew Info EnvSt Policy AlgSt Kwargs : Type}.

Local Abbreviation step_out := (@step_out Obs Rew Info).
Local Abbreviation event := (@event Obs Act Rew Info).
Local Abbreviation RewardFn := (@RewardFn Obs Act Rew).
Local Abbreviation reward_source := (@reward_source Obs Act Rew).
Local Abbreviation TrajectoryWithRew := (@TrajectoryWithRew Obs Act Rew Info).
Local Abbreviation partial := (@partial Obs Act Rew Info).
Local Abbreviation BufferingWrapper := (@BufferingWrapper Obs Act Rew Info).
Local Abbreviation RewardVecEnvWrapper := (@RewardVecEnvWrapper Obs Act Rew).
Local Abbreviation vec_env := (@vec_env Obs Act Rew Info EnvSt).
Local Abbreviation obj := (@obj Obs Act Rew Info EnvSt).
Local Abbreviation store := (@store Obs Act Rew Info EnvSt).
Local Abbreviation algorithm := (@algorithm Policy AlgSt).
Local Abbreviation prog := (@prog Obs Act Rew Info Policy AlgSt).
Local Abbreviation world := (@world Obs Act Rew Info EnvSt Policy AlgSt).
Local Abbreviation M := (@M Obs Act Rew Info EnvSt Policy AlgSt).
Local Abbreviation AgentTrainer := (@AgentTrainer Obs Act Rew).

(** [num_envs]: the number N of sub-environments. *)
Context (num_envs : nat).

(** The vectorized environment supplied from outside (stable-baselines
    [VecEnv]): a state machine that may raise. *)
Context (env_reset : EnvSt -> result (batch Obs) * EnvSt).
Context (env_step : EnvSt -> batch Act -> result step_out * EnvSt).

(** [BaseAlgorithm.learn], from the policy and state of the algorithm. *)
Context (learn : Policy -> AlgSt -> Z -> Kwargs -> prog).

Definition start (ob : Obs) : partial := Partial [ob] [] [] [].

Definition add_step (i : nat) (acts : batch Act) (out : step_out)
           (p : partial) : partial :=
  {| p_obs := p_obs p ++ [so_obs out i];
     p_acts := p_acts p ++ [acts i];
     p_rews := p_rews p ++ [so_rews out i];
     p_infos := p_infos p ++ [so_infos out i] |}.

Definition finish (id : nat) (p : partial) : TrajectoryWithRew :=
  {| traj_id := id;
     traj_obs := p_obs p;
     traj_acts := p_acts p;
     traj_rews := p_rews p;
     traj_infos := p_infos p;
     traj_terminal := true |}.

(** Modelled from the spec: the constructor of [BufferingWrapper], missing
    from the sources; a new buffer has recorded nothing. *)
Definition bw_new (venv : loc) : BufferingWrapper :=
  {| bw_venv := venv; bw_accum := []; bw_trajectories := [];
     bw_next_id := 0 |}.

(** Modelled from the spec: what [BufferingWrapper.reset], missing from the
    sources, does once the wrapped environment has returned [obs]: it clears
    the queued and the partial state and starts an episode per
    sub-environment. *)
Definition bw_on_reset (b : BufferingWrapper) (obs : batch Obs)
  : BufferingWrapper :=
  {| bw_venv := bw_venv b;
     bw_accum := map (fun i => start (obs i)) (seq 0 num_envs);
     bw_trajectories := [];
     bw_next_id := bw_next_id b |}.

(** Modelled from the spec: the per-index accumulation of
    [BufferingWrapper], missing from the sources.  One step of every running
    episode, from sub-environment [i] on: the new accumulators and the
    episodes that ended at this step. *)
Fixpoint auto_finish (i : nat) (acts : batch Act) (out : step_out)
         (accum : list partial) : list partial * list partial :=
  match accum with
  | [] => ([], [])
  | p :: rest =>
    let p' := add_step i acts out p in
    let (rest', fin) := auto_finish (S i) acts out rest in
    if so_dones out i
    then (start (so_obs out i) :: rest', p' :: fin)
    else (p' :: rest', fin)
  end.

Fixpoint finish_all (id : nat) (ps : list partial)
  : list TrajectoryWithRew :=
  match ps with
  | [] => []
  | p :: ps' => finish id p :: finish_all (S id) ps'
  end.

(** Modelled from the spec: what [BufferingWrapper.step], missing from the
    sources, does once the wrapped environment has returned [out]: it
    extends every running episode and enqueues those that ended. *)
Definition bw_on_step (b : BufferingWrapper) (acts : batch Act)
           (out : step_out) : BufferingWrapper :=
  let (accum', fin) := auto_finish 0 acts out (bw_accum b) in
  {| bw_venv := bw_venv b;
     bw_accum := accum';
     bw_trajectories := bw_trajectories b ++ finish_all (bw_next_id b) fin;
     bw_next_id := bw_next_id b + length fin |}.

(** Modelled from the spec: [BufferingWrapper.pop_trajectories], missing
    from the sources: it returns and clears the queue. *)
Definition bw_pop (b : BufferingWrapper)
  : list TrajectoryWithRew * BufferingWrapper :=
  (bw_trajectories b,
   {| bw_venv := bw_venv b; bw_accum := bw_accum b;
      bw_trajectories := []; bw_next_id := bw_next_id b |}).

(** Modelled from the spec: the constructor of [RewardVecEnvWrapper],
    missing from the sources; it stores the reward function. *)
Definition rw_new (venv : loc) (reward_fn : RewardFn)
  : RewardVecEnvWrapper :=
  {| rw_venv := venv; rw_reward_fn := reward_fn; rw_old_obs := None;
     rw_calls := 0 |}.

(** Modelled from the spec: what [RewardVecEnvWrapper.reset], missing from
    the sources, does with the observations of the wrapped environment. *)
Definition rw_on_reset (w : RewardVecEnvWrapper) (obs : batch Obs)
  : RewardVecEnvWrapper :=
  {| rw_venv := rw_venv w; rw_reward_fn := rw_reward_fn w;
     rw_old_obs := Some obs; rw_calls := rw_calls w |}.

Definition with_rews (out : step_out) (rews : batch Rew) : step_out :=
  {| so_obs := so_obs out; so_rews := rews; so_dones := so_dones out;
     so_infos := so_infos out |}.

(** Modelled from the spec: what [RewardVecEnvWrapper.step], missing from
    the sources, does with the output [out] of the wrapped environment's
    step: it computes the reward batch from the true transition and returns
    it in place of the environment's reward.  Before the first reset there
    is no current observation to form a transition with. *)
Definition rw_on_step (w : RewardVecEnvWrapper) (acts : batch Act)
           (out : step_out) : result step_out * RewardVecEnvWrapper :=
  match rw_old_obs w with
  | None => (Raise (AssertionError "step before reset"), w)
  | Some old_obs =>
    match rw_reward_fn w old_obs acts (so_obs out) (so_dones out) with
    | Ok rews =>
      (Ok (with_rews out rews),
       {| rw_venv := rw_venv w; rw_reward_fn := rw_reward_fn w;
          rw_old_obs := Some (so_obs out); rw_calls := S (rw_calls w) |})
    | Raise e =>
      (Raise e,
       {| rw_venv := rw_venv w; rw_reward_fn := rw_reward_fn w;
          rw_old_obs := rw_old_obs w; rw_calls := S (rw_calls w) |})
    end
  end.

Fixpoint lookup (st : store) (l : loc) : option obj :=
  match st with
  | [] => None
  | o :: st' => if l =? length st' then Some o else lookup st' l
  end.

Definition alloc (o : obj) (st : store) : loc * store :=
  (length st, o :: st).

Definition logged {A} (ev : A -> event) (r : result A) : list event :=
  match r with
  | Ok a => [ev a]
  | Raise _ => []
  end.

(** [venv.reset()] on the object at [l]. *)
Fixpoint venv_reset (st : store) (l : loc)
  : result (batch Obs) * store :=
  match st with
  | [] => (Raise (AttributeError "reset"), [])
  | o :: st' =>
    if l =? length st' then
      match o with
      | NotVecEnv => (Raise (AttributeError "reset"), st)
      | VecEnv e hist =>
        let '(r, e', st'') :=
          match e with
          | ExternalVecEnv s =>
            let (r, s') := env_reset s in (r, ExternalVecEnv s', st')
          | Buffering b =>
            let (r, st'') := venv_reset st' (bw_venv b) in
            match r with
            | Ok obs => (r, Buffering (bw_on_reset b obs), st'')
            | Raise _ => (r, Buffering b, st'')
            end
          | RewardWrap w =>
            let (r, st'') := venv_reset st' (rw_venv w) in
            match r with
            | Ok obs => (r, RewardWrap (rw_on_reset w obs), st'')
            | Raise _ => (r, RewardWrap w, st'')
            end
          end in
        (r, VecEnv e' (hist ++ logged EvReset r) :: st'')
      end
    else
      let (r, st'') := venv_reset st' l in (r, o :: st'')
  end.

(** [venv.step(acts)] on the object at [l]. *)
Fixpoint venv_step (st : store) (l : loc) (acts : batch Act)
  : result step_out * store :=
  match st with
  | [] => (Raise (AttributeError "step"), [])
  | o :: st' =>
    if l =? length st' then
      match o with
      | NotVecEnv => (Raise (AttributeError "step"), st)
      | VecEnv e hist =>
        let '(r, e', st'') :=
          match e with
          | ExternalVecEnv s =>
            let (r, s') := env_step s acts in (r, ExternalVecEnv s', st')
          | Buffering b =>
            let (r, st'') := venv_step st' (bw_venv b) acts in
            match r with
            | Ok out => (r, Buffering (bw_on_step b acts out), st'')
            | Raise _ => (r, Buffering b, st'')
            end
          | RewardWrap w =>
            let (r, st'') := venv_step st' (rw_venv w) acts in
            match r with
            | Ok out =>
              let (r', w') := rw_on_step w acts out in
              (r', RewardWrap w', st'')
            | Raise e => (Raise e, RewardWrap w, st'')
            end
          end in
        (r, VecEnv e' (hist ++ logged (EvStep acts) r) :: st'')
      end
    else
      let (r, st'') := venv_step st' l acts in (r, o :: st'')
  end.

(** [BufferingWrapper.pop_trajectories()] on the object at [l]. *)
Fixpoint venv_pop (st : store) (l : loc)
  : result (list TrajectoryWithRew) * store :=
  match st with
  | [] => (Raise (AttributeError "pop_trajectories"), [])
  | o :: st' =>
    if l =? length st' then
      match o with
      | VecEnv (Buffering b) hist =>
        let (trajs, b') := bw_pop b in
        (Ok trajs, VecEnv (Buffering b') hist :: st')
      | _ => (Raise (AttributeError "pop_trajectories"), st)
      end
    else
      let (r, st'') := venv_pop st' l in (r, o :: st'')
  end.

(** [isinstance(venv, vec_env.VecEnv)]: the reference itself when it
    denotes a vectorized environment; [None] is no instance. *)
Definition isinstance_VecEnv (st : store) (v : option loc) : option loc :=
  match v with
  | None => None
  | Some l =>
    match lookup st l with
    | Some (VecEnv _ _) => Some l
    | _ => None
    end
  end.

Definition ret {A} (a : A) : M A := fun w => (Ok a, w).

Definition raise {A} (e : exn) : M A := fun w => (Raise e, w).

Definition bind {A B} (m : M A) (f : A -> M B) : M B :=
  fun w =>
    match m w with
    | (Ok a, w') => f a w'
    | (Raise e, w') => (Raise e, w')
    end.

Notation "x <- m ;; k" := (bind m (fun x => k))
  (at level 61, m at next level, right associativity).

Definition on_store {A} (f : store -> result A * store) : M A :=
  fun w => let (r, st) := f (heap w) in (r, {| heap := st; algo := algo w |}).

Definition new (o : obj) : M loc :=
  fun w => let (l, st) := alloc o (heap w) in
           (Ok l, {| heap := st; algo := algo w |}).

Definition get_env : M (option loc) :=
  fun w => (Ok (alg_env (algo w)), w).

Definition set_env (env : loc) : M unit :=
  fun w => (Ok tt,
            {| heap := heap w;
               algo := {| alg_env := Some env;
                          alg_policy := alg_policy (algo w);
                          alg_state := alg_state (algo w) |} |}).

Definition get_policy : M Policy :=
  fun w => (Ok (alg_policy (algo w)), w).

Definition finish_learn (p : Policy) (s : AlgSt) (w : world) : world :=
  {| heap := heap w;
     algo := {| alg_env := alg_env (algo w); alg_policy := p;
                alg_state := s |} |}.

(** A call on the algorithm's own environment. *)
Definition on_env {A} (f : store -> loc -> result A * store) : M A :=
  fun w =>
    match alg_env (algo w) with
    | None => (Raise (AttributeError "env"), w)
    | Some l => on_store (fun st => f st l) w
    end.

Fixpoint run (p : prog) : M unit :=
  fun w =>
    match p with
    | Return pol s => (Ok tt, finish_learn pol s w)
    | Throw e pol s => (Raise e, finish_learn pol s w)
    | EnvReset k => let (r, w') := on_env venv_reset w in run (k r) w'
    | EnvStep acts k =>
      let (r, w') := on_env (fun st l => venv_step st l acts) w in
      run (k r) w'
    end.

(** [algorithm.learn(total_timesteps=total_timesteps, **kwargs)]. *)
Definition algorithm_learn (total_timesteps : Z) (kwargs : Kwargs)
  : M unit :=
  fun w =>
    run (learn (alg_policy (algo w)) (alg_state (algo w))
               total_timesteps kwargs) w.

(** ** AgentTrainer *)

Definition __init__ (reward_fn : reward_source) : M AgentTrainer :=
  let reward_fn :=
    match reward_fn with
    | IsRewardNet net => predict net
    | IsRewardFn f => f
    end in
  venv <- get_env ;;
  is_venv <- (fun w => (Ok (isinstance_VecEnv (heap w) venv), w)) ;;
  match is_venv with
  | None =>
    raise (ValueError
             "The environment for the agent algorithm must be set.")
  | Some venv =>
    buffering_wrapper <- new (VecEnv (Buffering (bw_new venv)) []) ;;
    venv <- new (VecEnv (RewardWrap (rw_new buffering_wrapper reward_fn))
                        []) ;;
    _ <- set_env venv ;;
    ret {| reward_fn := reward_fn;
           buffering_wrapper := buffering_wrapper;
           venv := venv |}
  end.

Definition _pop_trajectories (self : AgentTrainer)
  : M (list TrajectoryWithRew) :=
  on_store (fun st => venv_pop st (buffering_wrapper self)).

Definition train (self : AgentTrainer) (total_timesteps : Z)
           (kwargs : Kwargs) : M (list TrajectoryWithRew) :=
  _ <- on_store (fun st => venv_reset st (venv self)) ;;
  _ <- algorithm_learn total_timesteps kwargs ;;
  _pop_trajectories self.

Definition policy (self : AgentTrainer) : M Policy := get_policy.

(** The world after an operation, whether it returned or raised. *)
Definition exec (self : AgentTrainer) (o : op Kwargs) (w : world) : world :=
  match o with
  | OpTrain total_timesteps kwargs =>
    snd (train self total_timesteps kwargs w)
  | OpPop => snd (_pop_trajectories self w)
  | OpPolicy => snd (policy self w)
  end.

Definition exec_all (self : AgentTrainer) (ops : list (op Kwargs))
           (w : world) : world :=
  fold_left (fun w o => exec self o w) ops w.

(** ** What the properties speak about *)

(** The ghost history of the environment at [l]. *)
Definition hist_of (st : store) (l : loc) : list event :=
  match lookup st l with
  | Some (VecEnv _ hist) => hist
  | _ => []
  end.

Definition buffer_of (st : store) (l : loc) : option BufferingWrapper :=
  match lookup st l with
  | Some (VecEnv (Buffering b) _) => Some b
  | _ => None
  end.

Definition reward_wrapper_of (st : store) (l : loc)
  : option RewardVecEnvWrapper :=
  match lookup st l with
  | Some (VecEnv (RewardWrap r) _) => Some r
  | _ => None
  end.

(** The finalized trajectories waiting in the trainer's buffer, its running
    episodes, and the number of the next trajectory object. *)
Definition queued (self : AgentTrainer) (w : world)
  : list TrajectoryWithRew :=
  match buffer_of (heap w) (buffering_wrapper self) with
  | Some b => bw_trajectories b
  | None => []
  end.

Definition running (self : AgentTrainer) (w : world) : list partial :=
  match buffer_of (heap w) (buffering_wrapper self) with
  | Some b => bw_accum b
  | None => []
  end.

Definition next_id (self : AgentTrainer) (w : world) : nat :=
  match buffer_of (heap w) (buffering_wrapper self) with
  | Some b => bw_next_id b
  | None => 0
  end.

(** The number of evaluations of the reward function so far. *)
Definition reward_calls (self : AgentTrainer) (w : world) : nat :=
  match reward_wrapper_of (heap w) (venv self) with
  | Some r => rw_calls r
  | None => 0
  end.

(** The wrapping order: the algorithm's environment is the trainer's
    [venv], a [RewardVecEnvWrapper] around the trainer's
    [buffering_wrapper], a [BufferingWrapper] around the vectorized
    environment [v]. *)
Definition wrapping (self : AgentTrainer) (v : loc) (w : world) : Prop :=
  alg_env (algo w) = Some (venv self) /\
  (exists r, reward_wrapper_of (heap w) (venv self) = Some r /\
             rw_venv r = buffering_wrapper self /\
             rw_reward_fn r = reward_fn self) /\
  (exists b, buffer_of (heap w) (buffering_wrapper self) = Some b /\
             bw_venv b = v) /\
  isinstance_VecEnv (heap w) (Some v) = Some v.

(** The same, by the shape of the store: the two wrappers are its newest
    objects. *)
Definition chained (self : AgentTrainer) (v : loc) (w : world) : Prop :=
  alg_env (algo w) = Some (venv self) /\
  exists r hr b hb st0,
    heap w = VecEnv (RewardWrap r) hr :: VecEnv (Buffering b) hb :: st0 /\
    venv self = S (length st0) /\
    buffering_wrapper self = length st0 /\
    rw_venv r = length st0 /\
    rw_reward_fn r = reward_fn self /\
    bw_venv b = v /\
    isinstance_VecEnv st0 (Some v) = Some v.

(** One column of the steps of a history: what [f] reads off each step. *)
Definition column {X} (f : batch Act -> step_out -> X) (hist : list event)
  : list X :=
  flat_map (fun ev => match ev with
                      | EvStep acts out => [f acts out]
                      | EvReset _ => []
                      end) hist.

Fixpoint only_steps (hist : list event) : bool :=
  match hist with
  | [] => true
  | EvStep _ _ :: hist' => only_steps hist'
  | EvReset _ :: _ => false
  end.


(** The number of done flags among the N sub-environments of a step, and
    in a history. *)
Definition dones_in (out : step_out) : nat :=
  length (filter (so_dones out) (seq 0 num_envs)).

Definition count_dones (hist : list event) : nat :=
  list_sum (column (fun _ out => dones_in out) hist).

(** [t] is the episode that sub-environment [i] went through in the steps
    [seg]: it carries their actions, observations, info records and
    rewards, and [seg] ends with the first done flag of [i]. *)
Definition episode (i : nat) (seg : list event) (t : TrajectoryWithRew)
  : Prop :=
  only_steps seg = true /\
  traj_rews t = column (fun _ out => so_rews out i) seg /\
  traj_acts t = column (fun acts _ => acts i) seg /\
  traj_infos t = column (fun _ out => so_infos out i) seg /\
  (exists ob, traj_obs t = ob :: column (fun _ out => so_obs out i) seg) /\
  column (fun _ out => so_dones out i) seg
    = repeat false (length seg - 1) ++ [true].

(** [p] is the running episode of sub-environment [i] after the steps
    [hist]. *)
Definition in_progress (i : nat) (hist : list event) (p : partial) : Prop :=
  exists pre seg,
    hist = pre ++ seg /\
    p_rews p = column (fun _ out => so_rews out i) seg /\
    p_acts p = column (fun acts _ => acts i) seg /\
    p_infos p = column (fun _ out => so_infos out i) seg /\
    (exists ob, p_obs p = ob :: column (fun _ out => so_obs out i) seg) /\
    column (fun _ out => so_dones out i) seg = repeat false (length seg).

(** The buffer [b] holds what the steps [hist] since its last reset make
    it hold; its queued trajectories are numbered from [n0] or later. *)
Definition recorded (n0 : nat) (hist : list event) (b : BufferingWrapper)
  : Prop :=
  only_steps hist = true /\
  length (bw_accum b) = num_envs /\
  (forall i p, nth_error (bw_accum b) i = Some p -> in_progress i hist p) /\
  (forall t, In t (bw_trajectories b) ->
             exists i pre seg post,
               i < num_envs /\ hist = pre ++ seg ++ post /\ episode i seg t) /\
  length (bw_trajectories b) = count_dones hist /\
  (exists base,
      n0 <= base /\
      map traj_id (bw_trajectories b)
        = seq base (length (bw_trajectories b)) /\
      base + length (bw_trajectories b) = bw_next_id b).

(** Inside a call of [train] that began when the history of [v] was [h0]
    and the next trajectory number [n0]: since then the chain was reset,
    last with the observations [obs], and the buffer holds what the steps
    after that reset make it hold. *)
Definition tracked (self : AgentTrainer) (v : loc) (h0 : list event)
           (n0 : nat) (w : world) : Prop :=
  chained self v w /\
  exists b pre obs hist,
    buffer_of (heap w) (buffering_wrapper self) = Some b /\
    hist_of (heap w) v = h0 ++ pre ++ EvReset obs :: hist /\
    recorded n0 hist b.

(** Between calls: the chain stands and trajectory numbers only grow. *)
Definition steady (self : AgentTrainer) (v : loc) (n0 : nat) (w : world)
  : Prop :=
  chained self v w /\ n0 <= next_id self w.

(** The reward function that [__init__] binds for a reward source. *)
Definition bound (rs : reward_source) : RewardFn :=
  match rs with
  | IsRewardNet net => predict net
  | IsRewardFn f => f
  end.

(** [w] is a world in the lifetime of the trainer [self]: [self] was
    constructed from an algorithm whose environment was [v], and since then
    the caller has used the trainer's operations. *)
Definition alive (self : AgentTrainer) (v : loc) (w : world) : Prop :=
  exists rs w0 ops,
    alg_env (algo w0) = Some v /\
    fst (__init__ rs w0) = Ok self /\
    w = exec_all self ops (snd (__init__ rs w0)).








(** What a reward wrapper bound to [rf], whose current observation is [old],
    returns to its caller while the environment it wraps returns [taken]:
    the observations of a reset as they are; the output of a step with the
    rewards that [rf] computes from the current observation, the actions and
    that output; nothing for a step on which [rf] raises or for which there
    is no current observation. *)
Fixpoint seen (rf : RewardFn) (old : option (batch Obs))
         (taken : list event) : list event :=
  match taken with
  | [] => []
  | EvReset obs :: taken' => EvReset obs :: seen rf (Some obs) taken'
  | EvStep acts out :: taken' =>
    match old with
    | None => seen rf old taken'
    | Some o =>
      match rf o acts (so_obs out) (so_dones out) with
      | Ok rews =>
        EvStep acts (with_rews out rews) :: seen rf (Some (so_obs out)) taken'
      | Raise _ => seen rf old taken'
      end
    end
  end.

(** The current observation of that wrapper afterwards. *)
Fixpoint old_after (rf : RewardFn) (old : option (batch Obs))
         (taken : list event) : option (batch Obs) :=
  match taken with
  | [] => old
  | EvReset obs :: taken' => old_after rf (Some obs) taken'
  | EvStep acts out :: taken' =>
    match old with
    | None => old_after rf old taken'
    | Some o =>
      match rf o acts (so_obs out) (so_dones out) with
      | Ok _ => old_after rf (Some (so_obs out)) taken'
      | Raise _ => old_after rf old taken'
      end
    end
  end.

(** Since the histories of the trainer's [venv] and of [v] were [hr0] and
    [hv0] and the current observation of the reward wrapper [old0], what
    [venv] returned is what [seen] makes of what [v] returned. *)
Definition shadowing (self : AgentTrainer) (v : loc) (hr0 hv0 : list event)
           (old0 : option (batch Obs)) (w : world) : Prop :=
  chained self v w /\
  exists newv rw,
    hist_of (heap w) (venv self) = hr0 ++ seen (reward_fn self) old0 newv /\
    hist_of (heap w) v = hv0 ++ newv /\
    reward_wrapper_of (heap w) (venv self) = Some rw /\
    rw_old_obs rw = old_after (reward_fn self) old0 newv.

(** ** The store under reset and step *)

Lemma lookup_lt (st : store) (l : loc) (o : obj) :
  lookup st l = Some o -> l < length st.
Proof.
  induction st as [|o' st IH]; simpl; [discriminate|].
  destruct (l =? length st) eqn:E.
  - apply Nat.eqb_eq in E. lia.
  - intros H. apply IH in H. lia.
Qed.

Lemma lookup_below (o : obj) (st : store) (l : loc) :
  l < length st -> lookup (o :: st) l = lookup st l.
Proof.
  intros H. simpl.
  replace (l =? length st) with false
    by (symmetry; apply Nat.eqb_neq; lia).
  reflexivity.
Qed.

Lemma isinstance_cons (o o' : obj) (st st' : store) (v : option loc) :
  length st' = length st ->
  (forall l, isinstance_VecEnv st' l = isinstance_VecEnv st l) ->
  (match o, o' with
   | VecEnv _ _, VecEnv _ _ | NotVecEnv, NotVecEnv => True
   | _, _ => False
   end) ->
  isinstance_VecEnv (o' :: st') v = isinstance_VecEnv (o :: st) v.
Proof.
  intros Hlen Hcls Hsame. destruct v as [l|]; [|reflexivity].
  unfold isinstance_VecEnv; simpl. rewrite Hlen.
  destruct (l =? length st).
  - destruct o, o'; tauto.
  - apply (Hcls (Some l)).
Qed.

Lemma hist_of_here (o : obj) (st : store) :
  hist_of (o :: st) (length st)
  = match o with VecEnv _ hist => hist | NotVecEnv => [] end.
Proof. unfold hist_of; simpl. rewrite Nat.eqb_refl. reflexivity. Qed.

Lemma hist_of_below (o : obj) (st : store) (l : loc) :
  (l =? length st) = false -> hist_of (o :: st) l = hist_of st l.
Proof. intros E. unfold hist_of; simpl. rewrite E. reflexivity. Qed.

(** A step keeps the size of the store and the class of every object, and
    it extends the history of the stepped environment by what it
    returned. *)
Lemma venv_step_store (st : store) :
  forall l acts r st',
    venv_step st l acts = (r, st') ->
    length st' = length st /\
    hist_of st' l = hist_of st l ++ logged (EvStep acts) r /\
    forall v, isinstance_VecEnv st' v = isinstance_VecEnv st v.
Proof.
  induction st as [|o st IH]; intros l acts r st' H; simpl in H.
  - inversion H; subst. repeat split; reflexivity.
  - destruct (l =? length st) eqn:E.
    + apply Nat.eqb_eq in E; subst l.
      destruct o as [e hist|].
      * destruct e as [s|b|w].
        -- destruct (env_step s acts) as [r0 s'].
           inversion H; subst; clear H.
           split; [reflexivity|]. rewrite !hist_of_here.
           split; [reflexivity|]. intros v.
           apply isinstance_cons; auto.
        -- destruct (venv_step st (bw_venv b) acts) as [r0 st0] eqn:E2.
           destruct (IH _ _ _ _ E2) as (Hlen & _ & Hcls).
           destruct r0; inversion H; subst; clear H;
             (split; [simpl; congruence|]);
             rewrite <- Hlen at 1; rewrite !hist_of_here;
             (split; [reflexivity|]); intros v;
             apply isinstance_cons; auto.
        -- destruct (venv_step st (rw_venv w) acts) as [r0 st0] eqn:E2.
           destruct (IH _ _ _ _ E2) as (Hlen & _ & Hcls).
           destruct r0 as [out|e].
           ++ destruct (rw_on_step w acts out) as [r' w'].
              inversion H; subst; clear H.
              split; [simpl; congruence|].
              rewrite <- Hlen at 1; rewrite !hist_of_here.
              split; [reflexivity|]. intros v.
              apply isinstance_cons; auto.
           ++ inversion H; subst; clear H.
              split; [simpl; congruence|].
              rewrite <- Hlen at 1; rewrite !hist_of_here.
              split; [reflexivity|]. intros v.
              apply isinstance_cons; auto.
      * inversion H; subst; clear H. rewrite hist_of_here.
        repeat split; reflexivity.
    + destruct (venv_step st l acts) as [r0 st0] eqn:E2.
      destruct (IH _ _ _ _ E2) as (Hlen & Hhist & Hcls).
      inversion H; subst; clear H.
      split; [simpl; congruence|].
      rewrite (hist_of_below o st l E).
      rewrite hist_of_below by (rewrite Hlen; exact E).
      split; [exact Hhist|]. intros v.
      apply isinstance_cons; auto. destruct o; exact I.
Qed.

Lemma venv_reset_store (st : store) :
  forall l r st',
    venv_reset st l = (r, st') ->
    length st' = length st /\
    hist_of st' l = hist_of st l ++ logged EvReset r /\
    forall v, isinstance_VecEnv st' v = isinstance_VecEnv st v.
Proof.
  induction st as [|o st IH]; intros l r st' H; simpl in H.
  - inversion H; subst. repeat split; reflexivity.
  - destruct (l =? length st) eqn:E.
    + apply Nat.eqb_eq in E; subst l.
      destruct o as [e hist|].
      * destruct e as [s|b|w].
        -- destruct (env_reset s) as [r0 s'].
           inversion H; subst; clear H.
           split; [reflexivity|]. rewrite !hist_of_here.
           split; [reflexivity|]. intros v.
           apply isinstance_cons; auto.
        -- destruct (venv_reset st (bw_venv b)) as [r0 st0] eqn:E2.
           destruct (IH _ _ _ E2) as (Hlen & _ & Hcls).
           destruct r0; inversion H; subst; clear H;
             (split; [simpl; congruence|]);
             rewrite <- Hlen at 1; rewrite !hist_of_here;
             (split; [reflexivity|]); intros v;
             apply isinstance_cons; auto.
        -- destruct (venv_reset st (rw_venv w)) as [r0 st0] eqn:E2.
           destruct (IH _ _ _ E2) as (Hlen & _ & Hcls).
           destruct r0; inversion H; subst; clear H;
             (split; [simpl; congruence|]);
             rewrite <- Hlen at 1; rewrite !hist_of_here;
             (split; [reflexivity|]); intros v;
             apply isinstance_cons; auto.
      * inversion H; subst; clear H. rewrite hist_of_here.
        repeat split; reflexivity.
    + destruct (venv_reset st l) as [r0 st0] eqn:E2.
      destruct (IH _ _ _ E2) as (Hlen & Hhist & Hcls).
      inversion H; subst; clear H.
      split; [simpl; congruence|].
      rewrite (hist_of_below o st l E).
      rewrite hist_of_below by (rewrite Hlen; exact E).
      split; [exact Hhist|]. intros v.
      apply isinstance_cons; auto. destruct o; exact I.
Qed.

(** ** The chain of two wrappers *)

(** A step on the outer wrapper steps the wrapped environment once; the
    buffer records what that step returned, and only then the reward is
    replaced. *)
Lemma venv_step_chain (r : RewardVecEnvWrapper) (hr : list event)
      (b : BufferingWrapper) (hb : list event) (st0 : store)
      (acts : batch Act) :
  rw_venv r = length st0 ->
  venv_step (VecEnv (RewardWrap r) hr :: VecEnv (Buffering b) hb :: st0)
            (S (length st0)) acts
  = match venv_step st0 (bw_venv b) acts with
    | (Ok out, st0') =>
      let (r', w') := rw_on_step r acts out in
      (r', VecEnv (RewardWrap w') (hr ++ logged (EvStep acts) r')
             :: VecEnv (Buffering (bw_on_step b acts out))
                       (hb ++ [EvStep acts out])
             :: st0')
    | (Raise e, st0') =>
      (Raise e,
       VecEnv (RewardWrap r) (hr ++ [])
         :: VecEnv (Buffering b) (hb ++ []) :: st0')
    end.
Proof.
  intros Hr. cbn [venv_step length]. rewrite Nat.eqb_refl, Hr.
  rewrite Nat.eqb_refl.
  destruct (venv_step st0 (bw_venv b) acts) as [[out|e] st0']; cbn.
  - destruct (rw_on_step r acts out) as [r' w']. reflexivity.
  - reflexivity.
Qed.

Lemma venv_reset_chain (r : RewardVecEnvWrapper) (hr : list event)
      (b : BufferingWrapper) (hb : list event) (st0 : store) :
  rw_venv r = length st0 ->
  venv_reset (VecEnv (RewardWrap r) hr :: VecEnv (Buffering b) hb :: st0)
             (S (length st0))
  = match venv_reset st0 (bw_venv b) with
    | (Ok obs, st0') =>
      (Ok obs,
       VecEnv (RewardWrap (rw_on_reset r obs)) (hr ++ [EvReset obs])
         :: VecEnv (Buffering (bw_on_reset b obs)) (hb ++ [EvReset obs])
         :: st0')
    | (Raise e, st0') =>
      (Raise e,
       VecEnv (RewardWrap r) (hr ++ [])
         :: VecEnv (Buffering b) (hb ++ []) :: st0')
    end.
Proof.
  intros Hr. cbn [venv_reset length]. rewrite Nat.eqb_refl, Hr.
  rewrite Nat.eqb_refl.
  destruct (venv_reset st0 (bw_venv b)) as [[obs|e] st0']; reflexivity.
Qed.

Lemma venv_pop_chain (r : RewardVecEnvWrapper) (hr : list event)
      (b : BufferingWrapper) (hb : list event) (st0 : store) :
  venv_pop (VecEnv (RewardWrap r) hr :: VecEnv (Buffering b) hb :: st0)
           (length st0)
  = (Ok (bw_trajectories b),
     VecEnv (RewardWrap r) hr
       :: VecEnv (Buffering (snd (bw_pop b))) hb :: st0).
Proof.
  cbn [venv_pop length].
  replace (length st0 =? S (length st0)) with false
    by (symmetry; apply Nat.eqb_neq; lia).
  rewrite Nat.eqb_refl. reflexivity.
Qed.

Lemma rw_on_step_keeps (w : RewardVecEnvWrapper) (acts : batch Act)
      (out : step_out) :
  rw_venv (snd (rw_on_step w acts out)) = rw_venv w /\
  rw_reward_fn (snd (rw_on_step w acts out)) = rw_reward_fn w.
Proof.
  unfold rw_on_step. destruct (rw_old_obs w) as [old|]; [|auto].
  destruct (rw_reward_fn w old acts (so_obs out) (so_dones out)); auto.
Qed.

Lemma bw_on_step_venv (b : BufferingWrapper) (acts : batch Act)
      (out : step_out) :
  bw_venv (bw_on_step b acts out) = bw_venv b.
Proof.
  unfold bw_on_step. destruct (auto_finish 0 acts out (bw_accum b)).
  reflexivity.
Qed.

(** Reading the store of a chained world. *)
Lemma chain_buffer_of (r : RewardVecEnvWrapper) (hr : list event)
      (b : BufferingWrapper) (hb : list event) (st0 : store) :
  buffer_of (VecEnv (RewardWrap r) hr :: VecEnv (Buffering b) hb :: st0)
            (length st0) = Some b.
Proof.
  unfold buffer_of; cbn [lookup length].
  replace (length st0 =? S (length st0)) with false
    by (symmetry; apply Nat.eqb_neq; lia).
  rewrite Nat.eqb_refl. reflexivity.
Qed.

Lemma chain_reward_wrapper_of (r : RewardVecEnvWrapper) (hr : list event)
      (o : obj) (st0 : store) :
  reward_wrapper_of (VecEnv (RewardWrap r) hr :: o :: st0)
                    (S (length st0)) = Some r.
Proof.
  unfold reward_wrapper_of; cbn [lookup length].
  rewrite Nat.eqb_refl. reflexivity.
Qed.

Lemma isinstance_lt (st : store) (v : loc) :
  isinstance_VecEnv st (Some v) = Some v -> v < length st.
Proof.
  unfold isinstance_VecEnv. destruct (lookup st v) as [o|] eqn:E.
  - intros _. eapply lookup_lt; eauto.
  - discriminate.
Qed.

Lemma chain_hist_of (o1 o2 : obj) (st0 : store) (v : loc) :
  v < length st0 ->
  hist_of (o1 :: o2 :: st0) v = hist_of st0 v.
Proof.
  intros Hv. rewrite !hist_of_below; auto; apply Nat.eqb_neq; simpl; lia.
Qed.

Lemma chain_isinstance (o1 o2 : obj) (st0 : store) (v : loc) :
  v < length st0 ->
  isinstance_VecEnv (o1 :: o2 :: st0) (Some v)
  = isinstance_VecEnv st0 (Some v).
Proof.
  intros Hv. unfold isinstance_VecEnv; cbn [lookup length].
  replace (v =? S (length st0)) with false
    by (symmetry; apply Nat.eqb_neq; lia).
  replace (v =? length st0) with false
    by (symmetry; apply Nat.eqb_neq; lia).
  reflexivity.
Qed.

Lemma chained_wrapping (self : AgentTrainer) (v : loc) (w : world) :
  chained self v w -> wrapping self v w.
Proof.
  intros (Henv & r & hr & b & hb & st0 & Hheap & Hv & Hb & Hrv & Hrf & Hbv
          & Hinst).
  pose proof (isinstance_lt _ _ Hinst) as Hlt.
  unfold wrapping. rewrite Hheap, Hv, Hb.
  split; [congruence|]. split; [|split].
  - exists r. rewrite chain_reward_wrapper_of. auto.
  - exists b. rewrite chain_buffer_of. auto.
  - rewrite chain_isinstance; auto.
Qed.

(** What a step through the algorithm's environment does to a chained
    world: either the wrapped environment raised and nothing was recorded,
    or it returned [out], which the buffer recorded and the reward wrapper
    then turned into the result. *)
Lemma chained_step (self : AgentTrainer) (v : loc) (w w' : world)
      (acts : batch Act) (r : result step_out) :
  chained self v w ->
  on_env (fun st l => venv_step st l acts) w = (r, w') ->
  chained self v w' /\ algo w' = algo w /\
  exists b rw,
    buffer_of (heap w) (buffering_wrapper self) = Some b /\
    reward_wrapper_of (heap w) (venv self) = Some rw /\
    (((exists e, r = Raise e) /\
      buffer_of (heap w') (buffering_wrapper self) = Some b /\
      hist_of (heap w') v = hist_of (heap w) v /\
      reward_wrapper_of (heap w') (venv self) = Some rw)
     \/
     (exists out,
         buffer_of (heap w') (buffering_wrapper self)
         = Some (bw_on_step b acts out) /\
         hist_of (heap w') v = hist_of (heap w) v ++ [EvStep acts out] /\
         r = fst (rw_on_step rw acts out) /\
         reward_wrapper_of (heap w') (venv self)
         = Some (snd (rw_on_step rw acts out)))).
Proof.
  intros (Henv & rw & hr & b & hb & st0 & Hheap & Hv & Hb & Hrv & Hrf & Hbv
          & Hinst) H.
  pose proof (isinstance_lt _ _ Hinst) as Hlt.
  unfold on_env in H. rewrite Henv in H. unfold on_store in H.
  rewrite Hheap, Hv, venv_step_chain in H by assumption.
  destruct (venv_step st0 (bw_venv b) acts) as [r0 st0'] eqn:E.
  destruct (venv_step_store _ _ _ _ _ E) as (Hlen & Hhist & Hcls).
  rewrite Hbv in Hhist.
  destruct r0 as [out|e].
  - pose proof (rw_on_step_keeps rw acts out) as (K1 & K2).
    destruct (rw_on_step rw acts out) as [r' rw'] eqn:E'.
    simpl in K1, K2. inversion H; subst r w'; clear H. simpl.
    split; [|split; [reflexivity|]].
    + split; [exact Henv|].
      exists rw', (hr ++ logged (EvStep acts) r'),
        (bw_on_step b acts out), (hb ++ [EvStep acts out]), st0'.
      rewrite Hlen, bw_on_step_venv, Hcls. repeat split; congruence.
    + exists b, rw. rewrite Hheap, Hb, Hv.
      rewrite chain_buffer_of, chain_reward_wrapper_of.
      split; [reflexivity|]. split; [reflexivity|]. right. exists out.
      rewrite <- Hlen, chain_buffer_of, chain_reward_wrapper_of.
      rewrite !chain_hist_of by lia. rewrite E'. simpl. auto.
  - inversion H; subst r w'; clear H. simpl.
    split; [|split; [reflexivity|]].
    + split; [exact Henv|].
      exists rw, (hr ++ []), b, (hb ++ []), st0'.
      rewrite Hlen, Hcls. repeat split; congruence.
    + exists b, rw. rewrite Hheap, Hb, Hv.
      rewrite chain_buffer_of, chain_reward_wrapper_of.
      split; [reflexivity|]. split; [reflexivity|]. left.
      rewrite <- Hlen, chain_buffer_of, chain_reward_wrapper_of.
      rewrite !chain_hist_of by lia. simpl in Hhist.
      rewrite app_nil_r in Hhist. eauto.
Qed.

Lemma chained_reset (self : AgentTrainer) (v : loc) (w w' : world)
      (r : result (batch Obs)) :
  chained self v w ->
  on_store (fun st => venv_reset st (venv self)) w = (r, w') ->
  chained self v w' /\ algo w' = algo w /\
  exists b rw,
    buffer_of (heap w) (buffering_wrapper self) = Some b /\
    reward_wrapper_of (heap w) (venv self) = Some rw /\
    (((exists e, r = Raise e) /\
      buffer_of (heap w') (buffering_wrapper self) = Some b /\
      hist_of (heap w') v = hist_of (heap w) v /\
      reward_wrapper_of (heap w') (venv self) = Some rw)
     \/
     (exists obs,
         r = Ok obs /\
         buffer_of (heap w') (buffering_wrapper self)
         = Some (bw_on_reset b obs) /\
         hist_of (heap w') v = hist_of (heap w) v ++ [EvReset obs] /\
         reward_wrapper_of (heap w') (venv self)
         = Some (rw_on_reset rw obs))).
Proof.
  intros (Henv & rw & hr & b & hb & st0 & Hheap & Hv & Hb & Hrv & Hrf & Hbv
          & Hinst) H.
  pose proof (isinstance_lt _ _ Hinst) as Hlt.
  unfold on_store in H.
  rewrite Hheap, Hv, venv_reset_chain in H by assumption.
  destruct (venv_reset st0 (bw_venv b)) as [r0 st0'] eqn:E.
  destruct (venv_reset_store _ _ _ _ E) as (Hlen & Hhist & Hcls).
  rewrite Hbv in Hhist.
  destruct r0 as [obs|e]; inversion H; subst r w'; clear H; simpl.
  - split; [|split; [reflexivity|]].
    + split; [exact Henv|].
      exists (rw_on_reset rw obs), (hr ++ [EvReset obs]),
        (bw_on_reset b obs), (hb ++ [EvReset obs]), st0'.
      rewrite Hlen, Hcls. repeat split; first [assumption | exact Hrv | exact Hrf | exact Hbv].
    + exists b, rw. rewrite Hheap, Hb, Hv.
      rewrite chain_buffer_of, chain_reward_wrapper_of.
      split; [reflexivity|]. split; [reflexivity|]. right. exists obs.
      rewrite <- Hlen, chain_buffer_of, chain_reward_wrapper_of.
      rewrite !chain_hist_of by lia. auto.
  - split; [|split; [reflexivity|]].
    + split; [exact Henv|].
      exists rw, (hr ++ []), b, (hb ++ []), st0'.
      rewrite Hlen, Hcls. repeat split; congruence.
    + exists b, rw. rewrite Hheap, Hb, Hv.
      rewrite chain_buffer_of, chain_reward_wrapper_of.
      split; [reflexivity|]. split; [reflexivity|]. left.
      rewrite <- Hlen, chain_buffer_of, chain_reward_wrapper_of.
      rewrite !chain_hist_of by lia. simpl in Hhist.
      rewrite app_nil_r in Hhist. eauto.
Qed.

(** The algorithm's own reset is a reset of the trainer's [venv]. *)
Lemma chained_on_env_reset (self : AgentTrainer) (v : loc) (w : world) :
  chained self v w ->
  on_env venv_reset w = on_store (fun st => venv_reset st (venv self)) w.
Proof.
  intros (Henv & _). unfold on_env. rewrite Henv. reflexivity.
Qed.

Lemma chained_pop (self : AgentTrainer) (v : loc) (w : world) :
  chained self v w ->
  exists w',
    _pop_trajectories self w = (Ok (queued self w), w') /\
    chained self v w' /\ algo w' = algo w /\
    queued self w' = [] /\
    running self w' = running self w /\
    next_id self w' = next_id self w /\
    hist_of (heap w') v = hist_of (heap w) v /\
    reward_wrapper_of (heap w') (venv self)
    = reward_wrapper_of (heap w) (venv self).
Proof.
  intros (Henv & rw & hr & b & hb & st0 & Hheap & Hv & Hb & Hrv & Hrf & Hbv
          & Hinst).
  pose proof (isinstance_lt _ _ Hinst) as Hlt.
  unfold _pop_trajectories, on_store, queued, running, next_id.
  rewrite Hheap, Hb, Hv, venv_pop_chain, chain_buffer_of.
  eexists. split; [reflexivity|]. simpl.
  rewrite chain_buffer_of, !chain_reward_wrapper_of.
  rewrite !chain_hist_of by lia.
  repeat split; auto.
  exists rw, hr, (snd (bw_pop b)), hb, st0. repeat split; auto.
Qed.

(** Whatever [learn] does goes through resets and steps of the chain. *)
Lemma run_invariant (P : world -> Prop) :
  (forall w r w', P w -> on_env venv_reset w = (r, w') -> P w') ->
  (forall acts w r w',
      P w -> on_env (fun st l => venv_step st l acts) w = (r, w') -> P w') ->
  (forall pol s w, P w -> P (finish_learn pol s w)) ->
  forall p w r w', P w -> run p w = (r, w') -> P w'.
Proof.
  intros Hreset Hstep Hfin p.
  induction p as [pol s|e pol s|k IH|acts k IH]; intros w r w' HP H;
    simpl in H.
  - inversion H; subst. auto.
  - inversion H; subst. auto.
  - destruct (on_env venv_reset w) as [r0 w0] eqn:E.
    eapply IH; [|exact H]. eapply Hreset; eauto.
  - destruct (on_env (fun st l => venv_step st l acts) w) as [r0 w0] eqn:E.
    eapply IH; [|exact H]. eapply Hstep; eauto.
Qed.

(** ** The buffer against the history *)

Lemma column_app {X} (f : batch Act -> step_out -> X) (h1 h2 : list event) :
  column f (h1 ++ h2) = column f h1 ++ column f h2.
Proof. apply flat_map_app. Qed.

Lemma only_steps_app (h1 h2 : list event) :
  only_steps (h1 ++ h2) = only_steps h1 && only_steps h2.
Proof.
  induction h1 as [|[obs|acts out] h1 IH]; simpl; auto.
Qed.

Lemma column_length {X} (f : batch Act -> step_out -> X) (h : list event) :
  only_steps h = true -> length (column f h) = length h.
Proof.
  induction h as [|[obs|acts out] h IH]; simpl; intros H;
    [reflexivity|discriminate|]. rewrite IH; auto.
Qed.

Lemma count_dones_app (h1 h2 : list event) :
  count_dones (h1 ++ h2) = count_dones h1 + count_dones h2.
Proof. unfold count_dones. rewrite column_app. apply list_sum_app. Qed.

(** What one pass over the accumulators does to each of them. *)
Lemma auto_finish_spec (acts : batch Act) (out : step_out)
      (accum : list partial) :
  forall i accum' fin,
    auto_finish i acts out accum = (accum', fin) ->
    length accum' = length accum /\
    length fin = length (filter (so_dones out) (seq i (length accum))) /\
    (forall j p',
        nth_error accum' j = Some p' ->
        exists p,
          nth_error accum j = Some p /\
          p' = if so_dones out (i + j)
               then start (so_obs out (i + j))
               else add_step (i + j) acts out p) /\
    (forall q,
        In q fin ->
        exists j p,
          nth_error accum j = Some p /\
          so_dones out (i + j) = true /\
          q = add_step (i + j) acts out p).
Proof.
  induction accum as [|p rest IH]; intros i accum' fin H; simpl in H.
  - inversion H; subst. repeat split; auto.
    + intros [|j] p'; discriminate.
    + intros q [].
  - destruct (auto_finish (S i) acts out rest) as [rest' fin'] eqn:E.
    destruct (IH _ _ _ E) as (Hlen & Hfin & Hnth & Hin).
    assert (Hnth' : forall j p',
               nth_error (p :: rest) (S j) = Some p' ->
               nth_error rest j = Some p') by (intros; assumption).
    cbn [length seq filter].
    destruct (so_dones out i) eqn:D; inversion H; subst; clear H.
    + split; [simpl; congruence|]. split; [simpl; congruence|]. split.
      * intros [|j] p' Hj; simpl in Hj.
        -- inversion Hj; subst. exists p. rewrite Nat.add_0_r, D. auto.
        -- destruct (Hnth _ _ Hj) as (p0 & Hp0 & Hp').
           exists p0. rewrite Nat.add_succ_r. auto.
      * intros q [Hq|Hq].
        -- exists 0, p. rewrite Nat.add_0_r. auto.
        -- destruct (Hin _ Hq) as (j & p0 & Hp0 & Hd & Hq').
           exists (S j), p0. rewrite Nat.add_succ_r. auto.
    + split; [simpl; congruence|]. split; [exact Hfin|]. split.
      * intros [|j] p' Hj; simpl in Hj.
        -- inversion Hj; subst. exists p. rewrite Nat.add_0_r, D. auto.
        -- destruct (Hnth _ _ Hj) as (p0 & Hp0 & Hp').
           exists p0. rewrite Nat.add_succ_r. auto.
      * intros q Hq.
        destruct (Hin _ Hq) as (j & p0 & Hp0 & Hd & Hq').
        exists (S j), p0. rewrite Nat.add_succ_r. auto.
Qed.

Lemma finish_all_spec (ps : list partial) :
  forall id,
    length (finish_all id ps) = length ps /\
    map traj_id (finish_all id ps) = seq id (length ps) /\
    forall t, In t (finish_all id ps) ->
              exists n q, In q ps /\ t = finish n q.
Proof.
  induction ps as [|p ps IH]; intros id; simpl.
  - repeat split; auto. intros t [].
  - destruct (IH (S id)) as (Hlen & Hids & Hin).
    split; [congruence|]. split; [congruence|].
    intros t [Ht|Ht].
    + exists id, p. auto.
    + destruct (Hin _ Ht) as (n & q & Hq & Ht'). exists n, q. auto.
Qed.

Lemma recorded_weaken (n0 n0' : nat) (hist : list event)
      (b : BufferingWrapper) :
  n0' <= n0 -> recorded n0 hist b -> recorded n0' hist b.
Proof.
  intros Hle (H1 & H2 & H3 & H4 & H5 & base & Hb & Hids & Hnext).
  repeat split; auto. exists base. repeat split; auto. lia.
Qed.

(** After a reset the buffer is empty and follows every sub-environment
    from its first observation. *)
Lemma recorded_reset (b : BufferingWrapper) (obs : batch Obs) :
  recorded (bw_next_id b) [] (bw_on_reset b obs).
Proof.
  unfold recorded, bw_on_reset; simpl.
  split; [reflexivity|]. split; [rewrite length_map, length_seq; auto|].
  split; [|split; [intros t []|split; [reflexivity|]]].
  - intros i p Hp. exists [], []. simpl.
    apply nth_error_In, in_map_iff in Hp. destruct Hp as (j & Hj & _).
    subst p. simpl. repeat split; eauto.
  - exists (bw_next_id b). repeat split; auto.
Qed.

Lemma in_progress_add (i : nat) (hist : list event) (p : partial)
      (acts : batch Act) (out : step_out) :
  in_progress i hist p ->
  so_dones out i = false ->
  in_progress i (hist ++ [EvStep acts out]) (add_step i acts out p).
Proof.
  intros (pre & seg & Hh & Hr & Ha & Hi & (ob & Ho) & Hd) D.
  exists pre, (seg ++ [EvStep acts out]).
  rewrite !column_app, length_app; simpl.
  rewrite Hh, Hr, Ha, Hi, Ho, Hd, D, app_assoc.
  repeat split; auto.
  - exists ob. reflexivity.
  - rewrite Nat.add_1_r. simpl. rewrite repeat_cons. reflexivity.
Qed.

Lemma in_progress_finish (i id : nat) (hist : list event) (p : partial)
      (acts : batch Act) (out : step_out) :
  only_steps hist = true ->
  in_progress i hist p ->
  so_dones out i = true ->
  exists pre seg,
    hist ++ [EvStep acts out] = pre ++ seg ++ [] /\
    episode i seg (finish id (add_step i acts out p)).
Proof.
  intros Hs (pre & seg & Hh & Hr & Ha & Hi & (ob & Ho) & Hd) D.
  exists pre, (seg ++ [EvStep acts out]).
  rewrite app_nil_r, Hh, app_assoc. split; [reflexivity|].
  rewrite Hh, only_steps_app in Hs. apply andb_prop in Hs as [_ Hs].
  unfold episode. rewrite !column_app, only_steps_app, length_app; simpl.
  rewrite Hs, Hr, Ha, Hi, Ho, Hd, D.
  repeat split; auto.
  - exists ob. reflexivity.
  - rewrite Nat.add_1_r. simpl. rewrite Nat.sub_0_r. reflexivity.
Qed.

Lemma in_progress_start (i : nat) (hist : list event) (ob : Obs) :
  in_progress i hist (start ob).
Proof.
  exists hist, []. rewrite app_nil_r. simpl. repeat split; eauto.
Qed.

(** A step of the wrapped environment, recorded. *)
Lemma recorded_step (n0 : nat) (hist : list event) (b : BufferingWrapper)
      (acts : batch Act) (out : step_out) :
  recorded n0 hist b ->
  recorded n0 (hist ++ [EvStep acts out]) (bw_on_step b acts out).
Proof.
  intros (Hs & Hlen & Hacc & Hq & Hcount & base & Hbase & Hids & Hnext).
  unfold bw_on_step.
  destruct (auto_finish 0 acts out (bw_accum b)) as [accum' fin] eqn:E.
  destruct (auto_finish_spec _ _ _ _ _ _ E) as (Alen & Afin & Anth & Ain).
  destruct (finish_all_spec fin (bw_next_id b)) as (Flen & Fids & Fin).
  unfold recorded; simpl.
  split; [rewrite only_steps_app, Hs; reflexivity|].
  split; [congruence|]. split; [|split; [|split]].
  - intros i p' Hp'. destruct (Anth _ _ Hp') as (p & Hp & Hp'').
    simpl in Hp''. destruct (so_dones out i) eqn:D; subst p'.
    + apply in_progress_start.
    + apply in_progress_add; auto.
  - intros t Ht. apply in_app_or in Ht as [Ht|Ht].
    + destruct (Hq _ Ht) as (i & pre & seg & post & Hi & Hh & Hep).
      exists i, pre, seg, (post ++ [EvStep acts out]).
      rewrite Hh, <- !app_assoc. auto.
    + destruct (Fin _ Ht) as (n & q & Hq' & Ht').
      destruct (Ain _ Hq') as (j & p & Hp & D & Hq'').
      simpl in D, Hq''. subst t q.
      destruct (in_progress_finish j n hist p acts out Hs (Hacc _ _ Hp) D)
        as (pre & seg & Hh & Hep).
      exists j, pre, seg, []. split; [|auto].
      rewrite <- Hlen. apply nth_error_Some. congruence.
  - rewrite length_app, Flen, Afin, Hlen, Hcount, count_dones_app.
    unfold count_dones at 3; simpl. unfold dones_in. lia.
  - exists base. rewrite map_app, length_app, Hids, Fids, Flen.
    split; [exact Hbase|]. split; [|lia].
    rewrite seq_app. f_equal. f_equal. lia.
Qed.

(** ** Invariants of [learn] and of the operations *)

Lemma bw_on_step_next_id (b : BufferingWrapper) (acts : batch Act)
      (out : step_out) :
  bw_next_id b <= bw_next_id (bw_on_step b acts out).
Proof.
  unfold bw_on_step. destruct (auto_finish 0 acts out (bw_accum b)).
  simpl. lia.
Qed.

Lemma chained_finish_learn (self : AgentTrainer) (v : loc) (w : world)
      (pol : Policy) (s : AlgSt) :
  chained self v w -> chained self v (finish_learn pol s w).
Proof. intros (Henv & H). split; [exact Henv|exact H]. Qed.

Lemma steady_run (self : AgentTrainer) (v : loc) (n0 : nat) (p : prog)
      (w w' : world) (r : result unit) :
  steady self v n0 w -> run p w = (r, w') -> steady self v n0 w'.
Proof.
  revert p w r w'. apply (run_invariant (steady self v n0)).
  - intros w r w' (Hc & Hn) H.
    rewrite (chained_on_env_reset _ _ _ Hc) in H.
    destruct (chained_reset _ _ _ _ _ Hc H)
      as (Hc' & _ & b & rw & Hb & _ & [(_ & Hb' & _)|(obs & _ & Hb' & _)]);
      (split; [exact Hc'|]); unfold next_id in *; rewrite Hb in Hn;
      rewrite Hb'; exact Hn.
  - intros acts w r w' (Hc & Hn) H.
    destruct (chained_step _ _ _ _ _ _ Hc H)
      as (Hc' & _ & b & rw & Hb & _ & [(_ & Hb' & _)|(out & Hb' & _)]);
      (split; [exact Hc'|]); unfold next_id in *; rewrite Hb in Hn;
      rewrite Hb'; [exact Hn|].
    pose proof (bw_on_step_next_id b acts out). lia.
  - intros pol s w (Hc & Hn). split.
    + apply chained_finish_learn; exact Hc.
    + exact Hn.
Qed.

Lemma tracked_run (self : AgentTrainer) (v : loc) (h0 : list event)
      (n0 : nat) (p : prog) (w w' : world) (r : result unit) :
  tracked self v h0 n0 w -> run p w = (r, w') -> tracked self v h0 n0 w'.
Proof.
  revert p w r w'. apply (run_invariant (tracked self v h0 n0)).
  - intros w r w' (Hc & b & pre & obs & hist & Hb & Hh & Hrec) H.
    rewrite (chained_on_env_reset _ _ _ Hc) in H.
    destruct (chained_reset _ _ _ _ _ Hc H)
      as (Hc' & _ & b0 & rw & Hb0 & _
          & [(_ & Hb' & Hh' & _)|(obs' & _ & Hb' & Hh' & _)]);
      (split; [exact Hc'|]); rewrite Hb in Hb0; inversion Hb0; subst b0.
    + exists b, pre, obs, hist. rewrite Hb', Hh'. auto.
    + exists (bw_on_reset b obs'), (pre ++ EvReset obs :: hist), obs', [].
      rewrite Hb', Hh', Hh, <- !app_assoc. simpl.
      split; [reflexivity|]. split; [reflexivity|].
      apply recorded_weaken with (n0 := bw_next_id b);
        [|apply recorded_reset].
      destruct Hrec as (_ & _ & _ & _ & _ & base & Hbase & _ & Hnext). lia.
  - intros acts w r w' (Hc & b & pre & obs & hist & Hb & Hh & Hrec) H.
    destruct (chained_step _ _ _ _ _ _ Hc H)
      as (Hc' & _ & b0 & rw & Hb0 & _
          & [(_ & Hb' & Hh' & _)|(out & Hb' & Hh' & _)]);
      (split; [exact Hc'|]); rewrite Hb in Hb0; inversion Hb0; subst b0.
    + exists b, pre, obs, hist. rewrite Hb', Hh'. auto.
    + exists (bw_on_step b acts out), pre, obs, (hist ++ [EvStep acts out]).
      rewrite Hb', Hh', Hh, <- !app_assoc. simpl.
      split; [reflexivity|]. split; [reflexivity|].
      apply recorded_step; exact Hrec.
  - intros pol s w (Hc & H). split.
    + apply chained_finish_learn; exact Hc.
    + exact H.
Qed.

(** The three phases of [train] on a chained world. *)
Lemma train_phases (self : AgentTrainer) (total_timesteps : Z)
      (kwargs : Kwargs) (w : world) :
  train self total_timesteps kwargs w
  = match on_store (fun st => venv_reset st (venv self)) w with
    | (Raise e, w1) => (Raise e, w1)
    | (Ok _, w1) =>
      match run (learn (alg_policy (algo w1)) (alg_state (algo w1))
                       total_timesteps kwargs) w1 with
      | (Raise e, w2) => (Raise e, w2)
      | (Ok _, w2) => _pop_trajectories self w2
      end
    end.
Proof.
  unfold train, bind, algorithm_learn.
  destruct (on_store (fun st => venv_reset st (venv self)) w) as [[obs|e] w1];
    [|reflexivity].
  destruct (run _ w1) as [[u|e] w2]; reflexivity.
Qed.

(** After the reset that opens [train], the buffer is being tracked. *)
Lemma tracked_after_reset (self : AgentTrainer) (v : loc) (w w1 : world)
      (obs : batch Obs) :
  chained self v w ->
  on_store (fun st => venv_reset st (venv self)) w = (Ok obs, w1) ->
  tracked self v (hist_of (heap w) v) (next_id self w) w1 /\
  algo w1 = algo w /\
  queued self w1 = [] /\
  running self w1 = map (fun i => start (obs i)) (seq 0 num_envs) /\
  next_id self w1 = next_id self w /\
  reward_calls self w1 = reward_calls self w.
Proof.
  intros Hc H.
  destruct (chained_reset _ _ _ _ _ Hc H)
    as (Hc' & Halgo & b & rw & Hb & Hrw
        & [((e & He) & _)|(obs' & Hobs & Hb' & Hh' & Hrw')]);
    [discriminate|].
  inversion Hobs; subst obs'.
  unfold queued, running, next_id, reward_calls.
  rewrite Hb, Hb', Hrw, Hrw'. simpl.
  split; [|repeat split; auto].
  split; [exact Hc'|].
  exists (bw_on_reset b obs), [], obs, []. simpl.
  split; [exact Hb'|]. split; [exact Hh'|]. apply recorded_reset.
Qed.

(** What a returning [train] has done. *)
Lemma train_returns (self : AgentTrainer) (v : loc) (w w' : world)
      (total_timesteps : Z) (kwargs : Kwargs)
      (trajs : list TrajectoryWithRew) :
  chained self v w ->
  train self total_timesteps kwargs w = (Ok trajs, w') ->
  chained self v w' /\
  queued self w' = [] /\
  exists pre obs hist b,
    hist_of (heap w') v = hist_of (heap w) v ++ pre ++ EvReset obs :: hist /\
    recorded (next_id self w) hist b /\
    trajs = bw_trajectories b /\
    next_id self w' = bw_next_id b.
Proof.
  intros Hc H. rewrite train_phases in H.
  destruct (on_store (fun st => venv_reset st (venv self)) w)
    as [[obs|e] w1] eqn:E1; [|discriminate].
  destruct (tracked_after_reset _ _ _ _ _ Hc E1) as (Htr & _).
  destruct (run _ w1) as [[u|e] w2] eqn:E2; [|discriminate].
  destruct (tracked_run _ _ _ _ _ _ _ _ Htr E2)
    as (Hc2 & b & pre & obs' & hist & Hb & Hh & Hrec).
  destruct (chained_pop _ _ _ Hc2)
    as (w3 & Hpop & Hc3 & _ & Hq & _ & Hn & Hh3 & _).
  rewrite Hpop in H. inversion H; subst trajs w3; clear H.
  split; [exact Hc3|]. split; [exact Hq|].
  exists pre, obs', hist, b. rewrite Hh3, Hn.
  unfold queued, next_id. rewrite Hb. auto.
Qed.

Lemma steady_exec (self : AgentTrainer) (v : loc) (n0 : nat)
      (o : op Kwargs) (w : world) :
  steady self v n0 w -> steady self v n0 (exec self o w).
Proof.
  intros Hs. destruct o as [total_timesteps kwargs| |]; simpl.
  - rewrite train_phases.
    destruct (on_store (fun st => venv_reset st (venv self)) w)
      as [r1 w1] eqn:E1.
    assert (Hs1 : steady self v n0 w1).
    { destruct Hs as (Hc & Hn).
      destruct (chained_reset _ _ _ _ _ Hc E1)
        as (Hc' & _ & b & rw & Hb & _
            & [(_ & Hb' & _)|(obs & _ & Hb' & _)]);
        (split; [exact Hc'|]); unfold next_id in *; rewrite Hb in Hn;
        rewrite Hb'; exact Hn. }
    destruct r1 as [obs|e]; [|exact Hs1].
    destruct (run _ w1) as [r2 w2] eqn:E2.
    pose proof (steady_run _ _ _ _ _ _ _ Hs1 E2) as Hs2.
    destruct r2 as [u|e]; [|exact Hs2].
    destruct Hs2 as (Hc2 & Hn2).
    destruct (chained_pop _ _ _ Hc2) as (w3 & Hpop & Hc3 & _ & _ & _ & Hn3 & _).
    rewrite Hpop. simpl. split; [exact Hc3|]. rewrite Hn3. exact Hn2.
  - destruct Hs as (Hc & Hn).
    destruct (chained_pop _ _ _ Hc) as (w3 & Hpop & Hc3 & _ & _ & _ & Hn3 & _).
    rewrite Hpop. simpl. split; [exact Hc3|]. rewrite Hn3. exact Hn.
  - exact Hs.
Qed.

Lemma steady_exec_all (self : AgentTrainer) (v : loc) (n0 : nat)
      (ops : list (op Kwargs)) :
  forall w, steady self v n0 w -> steady self v n0 (exec_all self ops w).
Proof.
  induction ops as [|o ops IH]; intros w Hs; simpl.
  - exact Hs.
  - apply IH. apply steady_exec. exact Hs.
Qed.

(** ** Construction *)

Lemma init_raises (rs : reward_source) (w : world) :
  isinstance_VecEnv (heap w) (alg_env (algo w)) = None ->
  __init__ rs w
  = (Raise (ValueError "The environment for the agent algorithm must be set."),
     w).
Proof.
  intros H. unfold __init__, bind, get_env. rewrite H. reflexivity.
Qed.

Lemma init_returns (rs : reward_source) (w : world) (v : loc) :
  isinstance_VecEnv (heap w) (alg_env (algo w)) = Some v ->
  __init__ rs w
  = (Ok {| reward_fn := bound rs;
           buffering_wrapper := length (heap w);
           venv := S (length (heap w)) |},
     {| heap := VecEnv (RewardWrap (rw_new (length (heap w)) (bound rs))) []
                  :: VecEnv (Buffering (bw_new v)) [] :: heap w;
        algo := {| alg_env := Some (S (length (heap w)));
                   alg_policy := alg_policy (algo w);
                   alg_state := alg_state (algo w) |} |}).
Proof.
  intros H. unfold __init__, bind, get_env. rewrite H.
  destruct rs; reflexivity.
Qed.

Lemma isinstance_inv (st : store) (v : option loc) (l : loc) :
  isinstance_VecEnv st v = Some l -> v = Some l.
Proof.
  unfold isinstance_VecEnv. destruct v as [l'|]; [|discriminate].
  destruct (lookup st l') as [[e hist|]|]; congruence.
Qed.

Lemma init_chained (rs : reward_source) (w0 w1 : world)
      (self : AgentTrainer) :
  __init__ rs w0 = (Ok self, w1) ->
  exists v,
    alg_env (algo w0) = Some v /\
    chained self v w1 /\
    self = {| reward_fn := bound rs;
              buffering_wrapper := length (heap w0);
              venv := S (length (heap w0)) |} /\
    alg_policy (algo w1) = alg_policy (algo w0) /\
    alg_state (algo w1) = alg_state (algo w0).
Proof.
  intros H.
  destruct (isinstance_VecEnv (heap w0) (alg_env (algo w0))) as [v|] eqn:E.
  - rewrite (init_returns rs w0 v E) in H. inversion H; subst; clear H.
    pose proof (isinstance_inv _ _ _ E) as Hv.
    exists v. split; [exact Hv|]. split; [|auto].
    split; [reflexivity|].
    exists (rw_new (length (heap w0)) (bound rs)), [], (bw_new v), [],
      (heap w0).
    rewrite Hv in E. repeat split; auto.
  - rewrite (init_raises rs w0 E) in H. discriminate.
Qed.

Lemma alive_chained (self : AgentTrainer) (v : loc) (w : world) :
  alive self v w -> chained self v w.
Proof.
  intros (rs & w0 & ops & Hv & Hinit & Hw). subst w.
  destruct (__init__ rs w0) as [r w1] eqn:E. simpl in *. subst r.
  destruct (init_chained _ _ _ _ E) as (v' & Hv' & Hc & _).
  assert (v' = v) by congruence. subst v'.
  apply (steady_exec_all self v 0 ops w1). split; [exact Hc|lia].
Qed.

(** C6: when the algorithm's environment is absent or is not a vectorized
    environment, constructing the trainer raises the [ValueError] at once
    and leaves the world, hence the algorithm and its environment binding,
    as it was. *)
Theorem init_requires_vec_env (rs : reward_source) (w : world) :
  isinstance_VecEnv (heap w) (alg_env (algo w)) = None ->
  __init__ rs w
  = (Raise (ValueError "The environment for the agent algorithm must be set."),
     w).
Proof. apply init_raises. Qed.

(** C10: construction succeeds for every reward source, whatever its
    function does when called: it stores the function in the new reward
    wrapper without evaluating it, touches no older object (no environment
    is reset or stepped), and the reset that opens a later [train] does not
    evaluate it either. *)
Theorem init_never_evaluates_reward (rs : reward_source) (w : world)
        (v : loc) :
  isinstance_VecEnv (heap w) (alg_env (algo w)) = Some v ->
  exists self w',
    __init__ rs w = (Ok self, w') /\
    reward_wrapper_of (heap w') (venv self)
    = Some (rw_new (buffering_wrapper self) (bound rs)) /\
    reward_calls self w' = 0 /\
    (forall l, l < length (heap w) ->
               lookup (heap w') l = lookup (heap w) l) /\
    (forall r w1,
        on_store (fun st => venv_reset st (venv self)) w' = (r, w1) ->
        reward_calls self w1 = 0).
Proof.
  intros H. rewrite (init_returns rs w v H).
  eexists; eexists. split; [reflexivity|]. simpl.
  assert (Hc : chained
                 {| reward_fn := bound rs;
                    buffering_wrapper := length (heap w);
                    venv := S (length (heap w)) |} v
                 {| heap := VecEnv (RewardWrap
                                      (rw_new (length (heap w)) (bound rs))) []
                              :: VecEnv (Buffering (bw_new v)) [] :: heap w;
                    algo := {| alg_env := Some (S (length (heap w)));
                               alg_policy := alg_policy (algo w);
                               alg_state := alg_state (algo w) |} |}).
  { destruct (init_chained rs w _ _ (init_returns rs w v H))
      as (v' & Hv' & Hc & _).
    pose proof (isinstance_inv _ _ _ H). congruence. }
  unfold reward_calls; simpl.
  rewrite chain_reward_wrapper_of. repeat split.
  - intros l Hl.
    replace (l =? S (length (heap w))) with false
      by (symmetry; apply Nat.eqb_neq; lia).
    replace (l =? length (heap w)) with false
      by (symmetry; apply Nat.eqb_neq; lia).
    reflexivity.
  - intros r w1 Hreset.
    destruct (chained_reset _ _ _ _ _ Hc Hreset)
      as (_ & _ & b & rw & _ & Hrw
          & [(_ & _ & _ & Hrw')|(obs & _ & _ & _ & Hrw')]);
      simpl in Hrw, Hrw'; rewrite chain_reward_wrapper_of in Hrw;
      inversion Hrw; subst rw; rewrite Hrw'; reflexivity.
Qed.

(** C2: after a successful construction the two wrappers are new objects,
    and in every later world, whatever sequence of [train], pop and policy
    operations led to it, the algorithm's environment is the trainer's
    [venv], which is the reward wrapper around the trainer's
    [buffering_wrapper], which is the buffer around the environment [v] the
    algorithm had before. *)
Theorem wrapping_order_fixed (rs : reward_source) (w0 w1 : world)
        (self : AgentTrainer) (ops : list (op Kwargs)) :
  __init__ rs w0 = (Ok self, w1) ->
  exists v,
    alg_env (algo w0) = Some v /\
    lookup (heap w0) (buffering_wrapper self) = None /\
    lookup (heap w0) (venv self) = None /\
    wrapping self v (exec_all self ops w1).
Proof.
  intros H. destruct (init_chained _ _ _ _ H) as (v & Hv & Hc & Hself & _).
  exists v. split; [exact Hv|].
  assert (Hfresh : forall l, length (heap w0) <= l ->
                             lookup (heap w0) l = None).
  { intros l Hl. destruct (lookup (heap w0) l) as [o|] eqn:E; [|reflexivity].
    apply lookup_lt in E. lia. }
  subst self; simpl. split; [apply Hfresh; lia|]. split; [apply Hfresh; lia|].
  apply chained_wrapping.
  apply (steady_exec_all _ v 0 ops w1). split; [exact Hc|lia].
Qed.

(** C9: from construction on, after any sequence of operations, the policy
    accessor returns the policy of the algorithm and leaves the world as it
    is; construction itself keeps the algorithm's policy. *)
Theorem policy_read_only (rs : reward_source) (w0 w1 : world)
        (self : AgentTrainer) (ops : list (op Kwargs)) :
  __init__ rs w0 = (Ok self, w1) ->
  alg_policy (algo w1) = alg_policy (algo w0) /\
  policy self (exec_all self ops w1)
  = (Ok (alg_policy (algo (exec_all self ops w1))), exec_all self ops w1) /\
  exec self OpPolicy (exec_all self ops w1) = exec_all self ops w1.
Proof.
  intros H. destruct (init_chained _ _ _ _ H) as (v & _ & _ & _ & Hp & _).
  split; [exact Hp|]. split; reflexivity.
Qed.

(** ** Training *)


Lemma recorded_ids (n0 : nat) (hist : list event) (b : BufferingWrapper) :
  recorded n0 hist b ->
  NoDup (map traj_id (bw_trajectories b)) /\
  Forall (fun t => n0 <= traj_id t < bw_next_id b) (bw_trajectories b).
Proof.
  intros (_ & _ & _ & _ & _ & base & Hbase & Hids & Hnext).
  split.
  - rewrite Hids. apply seq_NoDup.
  - apply Forall_forall. intros t Ht.
    apply (in_map traj_id) in Ht. rewrite Hids in Ht.
    apply in_seq in Ht. lia.
Qed.

(** C1: every trajectory that [train] returns is an episode of the wrapped
    environment [v] itself: for some sub-environment [i] and some run [seg]
    of consecutive steps that [v] took during this call, the trajectory
    carries the rewards (and actions, observations, info records) that [v]
    returned for [i] in [seg], whatever the reward function returned to the
    algorithm. *)
Theorem train_returns_true_rewards (self : AgentTrainer) (v : loc)
        (w w' : world) (total_timesteps : Z) (kwargs : Kwargs)
        (trajs : list TrajectoryWithRew) :
  alive self v w ->
  train self total_timesteps kwargs w = (Ok trajs, w') ->
  exists new,
    hist_of (heap w') v = hist_of (heap w) v ++ new /\
    forall t,
      In t trajs ->
      exists i pre seg post,
        i < num_envs /\ new = pre ++ seg ++ post /\ episode i seg t.
Proof.
  intros Ha H. apply alive_chained in Ha.
  destruct (train_returns _ _ _ _ _ _ _ Ha H)
    as (_ & _ & pre & obs & hist & b & Hh & Hrec & Htrajs & _).
  exists (pre ++ EvReset obs :: hist). split; [exact Hh|].
  intros t Ht. subst trajs.
  destruct Hrec as (_ & _ & _ & Hq & _).
  destruct (Hq _ Ht) as (i & pre' & seg & post & Hi & Hhist & Hep).
  exists i, (pre ++ EvReset obs :: pre'), seg, post.
  split; [exact Hi|]. split; [|exact Hep].
  rewrite Hhist, <- app_assoc. reflexivity.
Qed.

(** C5: [train] first resets the chain, which empties the buffer's queue and
    restarts every running episode from the reset's observations; then it
    runs [learn] of the algorithm as it stands, with [total_timesteps] and
    [kwargs] as given; then it pops the buffer and returns what was queued.
    A phase that raises ends the call with that exception.  Nothing
    numbered before the call is returned. *)
Theorem train_three_steps (self : AgentTrainer) (v : loc) (w : world)
        (total_timesteps : Z) (kwargs : Kwargs) :
  alive self v w ->
  exists r1 w1,
    on_store (fun st => venv_reset st (venv self)) w = (r1, w1) /\
    match r1 with
    | Raise e => train self total_timesteps kwargs w = (Raise e, w1)
    | Ok obs =>
      queued self w1 = [] /\
      running self w1 = map (fun i => start (obs i)) (seq 0 num_envs) /\
      algo w1 = algo w /\
      exists r2 w2,
        run (learn (alg_policy (algo w)) (alg_state (algo w))
                   total_timesteps kwargs) w1 = (r2, w2) /\
        match r2 with
        | Raise e => train self total_timesteps kwargs w = (Raise e, w2)
        | Ok _ =>
          train self total_timesteps kwargs w
          = (Ok (queued self w2), snd (_pop_trajectories self w2)) /\
          queued self (snd (_pop_trajectories self w2)) = [] /\
          Forall (fun t => next_id self w <= traj_id t) (queued self w2)
        end
    end.
Proof.
  intros Ha. apply alive_chained in Ha. rewrite train_phases.
  destruct (on_store (fun st => venv_reset st (venv self)) w)
    as [r1 w1] eqn:E1.
  exists r1, w1. split; [reflexivity|].
  destruct r1 as [obs|e]; [|reflexivity].
  destruct (tracked_after_reset _ _ _ _ _ Ha E1)
    as (Htr & Halgo & Hq & Hrun & _).
  rewrite Halgo. split; [exact Hq|]. split; [exact Hrun|].
  split; [reflexivity|].
  destruct (run (learn (alg_policy (algo w)) (alg_state (algo w))
                       total_timesteps kwargs) w1) as [r2 w2] eqn:E2.
  exists r2, w2. split; [reflexivity|].
  destruct r2 as [u|e]; [|reflexivity].
  destruct (tracked_run _ _ _ _ _ _ _ _ Htr E2)
    as (Hc2 & b & pre & obs' & hist & Hb & _ & Hrec).
  destruct (chained_pop _ _ _ Hc2) as (w3 & Hpop & _ & _ & Hq3 & _).
  rewrite Hpop. simpl. split; [reflexivity|]. split; [exact Hq3|].
  unfold queued. rewrite Hb.
  apply recorded_ids in Hrec as (_ & HF).
  eapply Forall_impl; [|exact HF]. simpl. intros t Ht. lia.
Qed.

(** C7: when the reset has gone through and [learn] raises, [train] raises
    the same exception and leaves the world exactly as [learn] left it:
    nothing is retried, undone or cleaned up.  The trajectories queued at
    that moment, the episodes that ended since the last reset, are what
    popping the buffer then returns. *)
Theorem learn_error_propagates (self : AgentTrainer) (v : loc)
        (w w1 w2 : world) (total_timesteps : Z) (kwargs : Kwargs)
        (obs : batch Obs) (e : exn) :
  alive self v w ->
  on_store (fun st => venv_reset st (venv self)) w = (Ok obs, w1) ->
  algorithm_learn total_timesteps kwargs w1 = (Raise e, w2) ->
  train self total_timesteps kwargs w = (Raise e, w2) /\
  (exists w3,
      _pop_trajectories self w2 = (Ok (queued self w2), w3) /\
      queued self w3 = []) /\
  exists pre obs' hist,
    hist_of (heap w2) v = hist_of (heap w) v ++ pre ++ EvReset obs' :: hist /\
    only_steps hist = true /\
    length (queued self w2) = count_dones hist /\
    forall t,
      In t (queued self w2) ->
      exists i front seg back,
        i < num_envs /\ hist = front ++ seg ++ back /\ episode i seg t.
Proof.
  intros Ha E1 E2. apply alive_chained in Ha.
  destruct (tracked_after_reset _ _ _ _ _ Ha E1) as (Htr & _).
  unfold algorithm_learn in E2.
  split.
  - rewrite train_phases, E1, E2. reflexivity.
  - destruct (tracked_run _ _ _ _ _ _ _ _ Htr E2)
      as (Hc2 & b & pre & obs' & hist & Hb & Hh & Hrec).
    destruct (chained_pop _ _ _ Hc2) as (w3 & Hpop & _ & _ & Hq3 & _).
    split; [exists w3; auto|].
    exists pre, obs', hist. unfold queued. rewrite Hb.
    destruct Hrec as (Hs & _ & _ & Hq & Hcount & _). auto.
Qed.

(** ** Further properties of construction, training and popping *)

(** When the reset that opens [train] raises, [train] raises the same
    exception; [learn] has not run and nothing was popped: the algorithm,
    the buffer's queue and running episodes, and the history of the wrapped
    environment are as before the call, and the reward function was not
    evaluated. *)
Theorem train_reset_failure (self : AgentTrainer) (v : loc) (w w1 : world)
        (total_timesteps : Z) (kwargs : Kwargs) (e : exn) :
  alive self v w ->
  on_store (fun st => venv_reset st (venv self)) w = (Raise e, w1) ->
  train self total_timesteps kwargs w = (Raise e, w1) /\
  algo w1 = algo w /\
  queued self w1 = queued self w /\
  running self w1 = running self w /\
  next_id self w1 = next_id self w /\
  hist_of (heap w1) v = hist_of (heap w) v /\
  reward_calls self w1 = reward_calls self w.
Proof.
  intros Ha E1. apply alive_chained in Ha.
  split; [rewrite train_phases, E1; reflexivity|].
  destruct (chained_reset _ _ _ _ _ Ha E1)
    as (_ & Halgo & b & rw & Hb & Hrw
        & [(_ & Hb' & Hh' & Hrw')|(obs & Habs & _)]); [|discriminate].
  unfold queued, running, next_id, reward_calls.
  rewrite Hb, Hb', Hrw, Hrw'. repeat split; auto.
Qed.

(** Popping a live trainer never raises: it returns the queue and leaves
    the algorithm, the running episodes, the trajectory numbering and the
    history of the wrapped environment alone.  Popping again at once
    returns the empty list and changes nothing. *)
Theorem pop_twice (self : AgentTrainer) (v : loc) (w : world) :
  alive self v w ->
  exists w1,
    _pop_trajectories self w = (Ok (queued self w), w1) /\
    _pop_trajectories self w1 = (Ok [], w1) /\
    algo w1 = algo w /\
    running self w1 = running self w /\
    next_id self w1 = next_id self w /\
    hist_of (heap w1) v = hist_of (heap w) v.
Proof.
  intros Ha. apply alive_chained in Ha.
  destruct Ha as (Henv & rw & hr & b & hb & st0 & Hheap & Hv & Hb & Hrv & Hrf
                  & Hbv & Hinst).
  pose proof (isinstance_lt _ _ Hinst) as Hlt.
  unfold _pop_trajectories, on_store, queued, running, next_id.
  rewrite Hheap, Hb, venv_pop_chain, chain_buffer_of.
  eexists. split; [reflexivity|]. cbn [heap algo].
  rewrite venv_pop_chain, chain_buffer_of.
  rewrite !chain_hist_of by lia. repeat split; reflexivity.
Qed.

(** Right after a call of [train] that returned, popping returns the empty
    list: [train] has handed out everything that was queued. *)
Theorem pop_after_train_is_empty (self : AgentTrainer) (v : loc)
        (w w' : world) (total_timesteps : Z) (kwargs : Kwargs)
        (trajs : list TrajectoryWithRew) :
  alive self v w ->
  train self total_timesteps kwargs w = (Ok trajs, w') ->
  exists w'', _pop_trajectories self w' = (Ok [], w'') /\ algo w'' = algo w'.
Proof.
  intros Ha H. apply alive_chained in Ha.
  destruct (train_returns _ _ _ _ _ _ _ Ha H) as (Hc & Hq & _).
  destruct (chained_pop _ _ _ Hc) as (w'' & Hpop & _ & Halgo & _).
  rewrite Hq in Hpop. exists w''. auto.
Qed.

(** A pop leaves every history alone. *)
Lemma venv_pop_hist (st : store) :
  forall l r st' l',
    venv_pop st l = (r, st') ->
    length st' = length st /\ hist_of st' l' = hist_of st l'.
Proof.
  induction st as [|o st IH]; intros l r st' l' H; simpl in H.
  - inversion H; subst. split; reflexivity.
  - destruct (l =? length st) eqn:E.
    + destruct o as [[s|b|rw] hist|]; inversion H; subst; clear H;
        try (split; reflexivity).
      split; [reflexivity|]. unfold hist_of; simpl.
      destruct (l' =? length st); reflexivity.
    + destruct (venv_pop st l) as [r0 st0] eqn:E2.
      inversion H; subst; clear H.
      destruct (IH _ _ _ l' E2) as (Hlen & Hh).
      split; [simpl; congruence|].
      unfold hist_of in *; simpl. rewrite Hlen.
      destruct (l' =? length st); [reflexivity|exact Hh].
Qed.

(** ** Episodes pinned to the history *)











(** ** The numbers of queued trajectories *)






(** ** Counting, numbering and stacking *)



(** C8: a reward model and a reward function that agree on every batch give
    trainers that behave alike.  Construction binds the model's [predict]
    and the function once, and that is what the reward wrappers hold in
    every later world.  After the same operations, the two reward wrappers
    have the same current observation and return the same result for every
    step, the algorithms have received the same observations and
    substituted rewards, and a call of [train] returns the same. *)
Theorem reward_net_like_reward_fn (net : RewardNet) (f : RewardFn)
        (w0 w1 w2 : world) (self1 self2 : AgentTrainer)
        (ops : list (op Kwargs)) (total_timesteps : Z) (kwargs : Kwargs) :
  (forall obs acts next_obs dones,
      predict net obs acts next_obs dones = f obs acts next_obs dones) ->
  __init__ (IsRewardNet net) w0 = (Ok self1, w1) ->
  __init__ (IsRewardFn f) w0 = (Ok self2, w2) ->
  reward_fn self1 = predict net /\
  reward_fn self2 = f /\
  venv self1 = venv self2 /\
  (exists rw1 rw2,
      reward_wrapper_of (heap (exec_all self1 ops w1)) (venv self1)
      = Some rw1 /\
      reward_wrapper_of (heap (exec_all self2 ops w2)) (venv self2)
      = Some rw2 /\
      rw_reward_fn rw1 = predict net /\
      rw_reward_fn rw2 = f /\
      rw_old_obs rw1 = rw_old_obs rw2 /\
      forall acts out,
        fst (rw_on_step rw1 acts out) = fst (rw_on_step rw2 acts out)) /\
  hist_of (heap (exec_all self1 ops w1)) (venv self1)
  = hist_of (heap (exec_all self2 ops w2)) (venv self2) /\
  fst (train self1 total_timesteps kwargs (exec_all self1 ops w1))
  = fst (train self2 total_timesteps kwargs (exec_all self2 ops w2)).
Proof.
  intros Hagree H1 H2.
  destruct (init_chained _ _ _ _ H1) as (v1 & _ & Hc1 & Hs1 & _).
  assert (K1 : reward_fn self1 = predict net) by (subst self1; reflexivity).
  assert (Hsame : predict net = f).
  { apply functional_extensionality; intros obs.
    apply functional_extensionality; intros acts.
    apply functional_extensionality; intros next_obs.
    apply functional_extensionality; intros dones. apply Hagree. }
  assert (Hinit : __init__ (IsRewardNet net) w0 = __init__ (IsRewardFn f) w0).
  { destruct (isinstance_VecEnv (heap w0) (alg_env (algo w0))) as [v|] eqn:E.
    - rewrite !(init_returns _ w0 v E). simpl. rewrite Hsame. reflexivity.
    - rewrite !(init_raises _ w0 E). reflexivity. }
  rewrite Hinit, H2 in H1. inversion H1; subst self2 w2; clear H1.
  split; [exact K1|]. split; [congruence|]. split; [reflexivity|].
  split; [|split; reflexivity].
  assert (S1 : steady self1 v1 0 (exec_all self1 ops w1))
    by (apply steady_exec_all; split; [exact Hc1|lia]).
  destruct (chained_wrapping _ _ _ (proj1 S1))
    as (_ & (rw1 & Hrw1 & _ & Hf1) & _).
  exists rw1, rw1. rewrite Hrw1, Hf1, K1.
  repeat split; auto.
Qed.

(** On the algorithm of a live trainer, constructing another trainer
    succeeds: the algorithm's environment is the first trainer's [venv], a
    vectorized environment.  The new wrappers are new objects stacked on
    it: the algorithm's environment becomes the second trainer's [venv],
    around its buffer, around the first trainer's [venv]. *)
Theorem second_trainer_stacks (rs2 : reward_source) (self1 : AgentTrainer)
        (v : loc) (w : world) :
  alive self1 v w ->
  exists self2 w2,
    __init__ rs2 w = (Ok self2, w2) /\
    wrapping self2 (venv self1) w2 /\
    venv self2 <> venv self1 /\
    buffering_wrapper self2 <> buffering_wrapper self1 /\
    buffering_wrapper self2 <> venv self1 /\
    alg_env (algo w2) <> Some (venv self1).
Proof.
  intros Ha. apply alive_chained in Ha.
  pose proof (chained_wrapping _ _ _ Ha)
    as (Henv1 & (rw & Hrw & _) & (b & Hb & _) & _).
  assert (L1 : venv self1 < length (heap w)).
  { unfold reward_wrapper_of in Hrw.
    destruct (lookup (heap w) (venv self1)) as [o|] eqn:E';
      [eapply lookup_lt; eauto|discriminate]. }
  assert (L2 : buffering_wrapper self1 < length (heap w)).
  { unfold buffer_of in Hb.
    destruct (lookup (heap w) (buffering_wrapper self1)) as [o|] eqn:E';
      [eapply lookup_lt; eauto|discriminate]. }
  assert (E : isinstance_VecEnv (heap w) (alg_env (algo w))
              = Some (venv self1)).
  { rewrite Henv1. unfold isinstance_VecEnv.
    unfold reward_wrapper_of in Hrw.
    destruct (lookup (heap w) (venv self1)) as [[e hist|]|];
      [reflexivity|discriminate|discriminate]. }
  pose proof (init_returns rs2 w _ E) as H2.
  destruct (init_chained _ _ _ _ H2) as (v' & Hv' & Hc2 & _).
  assert (v' = venv self1) by congruence. subst v'.
  eexists; eexists. split; [exact H2|].
  split; [apply chained_wrapping; exact Hc2|].
  cbn [heap algo alg_env venv buffering_wrapper].
  repeat split; try lia.
  intros Habs. inversion Habs. lia.
Qed.

(** ** What the algorithm receives *)

Lemma seen_app (rf : RewardFn) (t1 t2 : list event) :
  forall old,
    seen rf old (t1 ++ t2)
    = seen rf old t1 ++ seen rf (old_after rf old t1) t2 /\
    old_after rf old (t1 ++ t2) = old_after rf (old_after rf old t1) t2.
Proof.
  induction t1 as [|[obs|acts out] t1 IH]; intros old; simpl.
  - split; reflexivity.
  - destruct (IH (Some obs)) as (A & B). rewrite A, B. split; reflexivity.
  - destruct old as [o|]; [|apply IH].
    destruct (rf o acts (so_obs out) (so_dones out)) as [rews|e];
      [|apply IH].
    destruct (IH (Some (so_obs out))) as (A & B). rewrite A, B.
    split; reflexivity.
Qed.

Lemma rw_on_step_seen (rw : RewardVecEnvWrapper) (acts : batch Act)
      (out : step_out) :
  logged (EvStep acts) (fst (rw_on_step rw acts out))
  = seen (rw_reward_fn rw) (rw_old_obs rw) [EvStep acts out] /\
  rw_old_obs (snd (rw_on_step rw acts out))
  = old_after (rw_reward_fn rw) (rw_old_obs rw) [EvStep acts out].
Proof.
  unfold rw_on_step; simpl.
  destruct (rw_old_obs rw) as [old|] eqn:E; [|simpl; auto].
  destruct (rw_reward_fn rw old acts (so_obs out) (so_dones out));
    simpl; auto.
Qed.

Lemma shadowing_reset (self : AgentTrainer) (v : loc) (hr0 hv0 : list event)
      (old0 : option (batch Obs)) (w w' : world) (r : result (batch Obs)) :
  shadowing self v hr0 hv0 old0 w ->
  on_store (fun st => venv_reset st (venv self)) w = (r, w') ->
  shadowing self v hr0 hv0 old0 w'.
Proof.
  intros (Hc & newv & rw & Hr & Hv & Hrw & Hold) H.
  assert (Hheap : venv_reset (heap w) (venv self) = (r, heap w')).
  { unfold on_store in H.
    destruct (venv_reset (heap w) (venv self)) as [r0 st0].
    inversion H; reflexivity. }
  destruct (venv_reset_store _ _ _ _ Hheap) as (_ & Hr' & _).
  destruct (chained_reset _ _ _ _ _ Hc H)
    as (Hc' & _ & b & rw0 & _ & Hrw0
        & [((e & He) & _ & Hv' & Hrw')|(obs & Hobs & _ & Hv' & Hrw')]);
    (split; [exact Hc'|]); subst r; simpl in Hr';
    assert (rw0 = rw) by congruence; subst rw0.
  - exists newv, rw. rewrite Hr', Hv', app_nil_r. auto.
  - exists (newv ++ [EvReset obs]), (rw_on_reset rw obs).
    destruct (seen_app (reward_fn self) newv [EvReset obs] old0) as (A & B).
    rewrite Hr', Hv', Hr, Hv, A, B, <- !app_assoc. simpl. auto.
Qed.

Lemma shadowing_step (self : AgentTrainer) (v : loc) (hr0 hv0 : list event)
      (old0 : option (batch Obs)) (w w' : world) (acts : batch Act)
      (r : result step_out) :
  shadowing self v hr0 hv0 old0 w ->
  on_env (fun st l => venv_step st l acts) w = (r, w') ->
  shadowing self v hr0 hv0 old0 w'.
Proof.
  intros (Hc & newv & rw & Hr & Hv & Hrw & Hold) H.
  assert (Hheap : venv_step (heap w) (venv self) acts = (r, heap w')).
  { destruct Hc as (Henv & _). unfold on_env in H. rewrite Henv in H.
    unfold on_store in H.
    destruct (venv_step (heap w) (venv self) acts) as [r0 st0].
    inversion H; reflexivity. }
  destruct (venv_step_store _ _ _ _ _ Hheap) as (_ & Hr' & _).
  pose proof (chained_wrapping _ _ _ Hc) as (_ & (rw1 & Hrw1 & _ & Hrf) & _).
  assert (rw1 = rw) by congruence. subst rw1.
  destruct (chained_step _ _ _ _ _ _ Hc H)
    as (Hc' & _ & b & rw0 & _ & Hrw0
        & [((e & He) & _ & Hv' & Hrw')|(out & _ & Hv' & Hres & Hrw')]);
    (split; [exact Hc'|]); assert (rw0 = rw) by congruence; subst rw0.
  - subst r; simpl in Hr'.
    exists newv, rw. rewrite Hr', Hv', app_nil_r. auto.
  - exists (newv ++ [EvStep acts out]), (snd (rw_on_step rw acts out)).
    destruct (seen_app (reward_fn self) newv [EvStep acts out] old0)
      as (A & B).
    destruct (rw_on_step_seen rw acts out) as (C & D).
    rewrite Hrf, Hold in C, D.
    rewrite Hr', Hv', Hr, Hv, A, B, Hres, C, D, <- !app_assoc. auto.
Qed.

(** During a call of [train], whether it returns or raises, what the
    algorithm receives from its environment is determined by what the
    wrapped environment [v] returns and by the trainer's [reward_fn]: it is
    what [seen] makes of the events of [v], from the current observation the
    reward wrapper had when the call began.  So a reset comes through as it
    is, and a step comes through with the wrapped environment's
    observations, done flags and info records and with the rewards that
    [reward_fn] computes from the observation the algorithm received last,
    the actions, and that step's observations and done flags. *)
Theorem train_feeds_substituted_rewards (self : AgentTrainer) (v : loc)
        (w : world) (total_timesteps : Z) (kwargs : Kwargs) :
  alive self v w ->
  exists rw newv,
    reward_wrapper_of (heap w) (venv self) = Some rw /\
    hist_of (heap (snd (train self total_timesteps kwargs w))) v
    = hist_of (heap w) v ++ newv /\
    hist_of (heap (snd (train self total_timesteps kwargs w))) (venv self)
    = hist_of (heap w) (venv self)
      ++ seen (reward_fn self) (rw_old_obs rw) newv.
Proof.
  intros Ha. apply alive_chained in Ha.
  pose proof (chained_wrapping _ _ _ Ha) as (_ & (rw & Hrw & _) & _).
  exists rw.
  assert (H0 : shadowing self v (hist_of (heap w) (venv self))
                         (hist_of (heap w) v) (rw_old_obs rw) w).
  { split; [exact Ha|]. exists [], rw. simpl. rewrite !app_nil_r. auto. }
  cut (shadowing self v (hist_of (heap w) (venv self)) (hist_of (heap w) v)
                 (rw_old_obs rw)
                 (snd (train self total_timesteps kwargs w))).
  { intros (_ & newv & rw' & Hr & Hv & _). exists newv. auto. }
  rewrite train_phases.
  destruct (on_store (fun st => venv_reset st (venv self)) w)
    as [r1 w1] eqn:E1.
  pose proof (shadowing_reset _ _ _ _ _ _ _ _ H0 E1) as H1.
  destruct r1 as [obs|e]; [|exact H1].
  destruct (run (learn (alg_policy (algo w1)) (alg_state (algo w1))
                       total_timesteps kwargs) w1) as [r2 w2] eqn:E2.
  assert (H2 : shadowing self v (hist_of (heap w) (venv self))
                         (hist_of (heap w) v) (rw_old_obs rw) w2).
  { revert E2 H1. generalize (learn (alg_policy (algo w1))
                                    (alg_state (algo w1))
                                    total_timesteps kwargs).
    intros p E2 H1. clear E1. revert p w1 r2 w2 H1 E2.
    apply (run_invariant
             (shadowing self v (hist_of (heap w) (venv self))
                        (hist_of (heap w) v) (rw_old_obs rw))).
    - intros wa r wb Hs Hreset.
      rewrite (chained_on_env_reset _ _ _ (proj1 Hs)) in Hreset.
      eapply shadowing_reset; eauto.
    - intros acts wa r wb Hs Hstep. eapply shadowing_step; eauto.
    - intros pol s wa (Hc & Hs). split.
      + apply chained_finish_learn; exact Hc.
      + exact Hs. }
  destruct r2 as [u|e]; [|exact H2].
  destruct H2 as (Hc2 & newv & rw2 & Hr & Hv & Hrw2 & Hold).
  destruct (chained_pop _ _ _ Hc2) as (w3 & Hpop & Hc3 & _ & _ & _ & _ & _
                                       & Hrw3).
  unfold _pop_trajectories, on_store in Hpop.
  destruct (venv_pop (heap w2) (buffering_wrapper self)) as [r3 st3] eqn:E3.
  unfold _pop_trajectories, on_store. rewrite E3. simpl.
  inversion Hpop; subst r3 w3; clear Hpop. simpl in Hrw3.
  split; [exact Hc3|]. exists newv, rw2. simpl.
  rewrite !(proj2 (venv_pop_hist _ _ _ _ _ E3)), Hrw3. auto.
Qed.

End Trainer.

(** ** The properties on the small instance *)

Local Abbreviation demo_init :=
  (__init__ (EnvSt:=nat) (Policy:=nat) (AlgSt:=unit) (Info:=unit)
            (IsRewardFn Demo.hundred) Demo.w0).
Local Abbreviation demo_w1 := (snd demo_init).
Local Abbreviation demo_net_init :=
  (__init__ (EnvSt:=nat) (Policy:=nat) (AlgSt:=unit) (Info:=unit)
            (IsRewardNet Demo.net) Demo.w0).
Local Abbreviation demo_train :=
  (train 2 Demo.env_reset Demo.env_step Demo.learn Demo.self).
Local Abbreviation demo_exec_all :=
  (exec_all 2 Demo.env_reset Demo.env_step Demo.learn Demo.self).
Local Abbreviation demo_alive :=
  (alive 2 Demo.env_reset Demo.env_step Demo.learn Demo.self 0).
Local Abbreviation demo_reset :=
  (on_store (Policy:=nat) (AlgSt:=unit)
            (fun st => venv_reset 2 Demo.env_reset st (venv Demo.self))).

(** The world right after construction is the first of the trainer's life. *)
Lemma demo_alive_w1 : demo_alive demo_w1.
Proof. exists (IsRewardFn Demo.hundred), Demo.w0, []. repeat split. Qed.

(** C1 on the instance: seven steps of training under the reward function
    that pays 100. *)
Lemma train_returns_true_rewards_witness :
  demo_alive demo_w1 /\
  exists new,
    hist_of (heap (snd (demo_train 7%Z tt demo_w1))) 0
    = hist_of (heap demo_w1) 0 ++ new /\
    forall t,
      In t (value_or [] (fst (demo_train 7%Z tt demo_w1))) ->
      exists i pre seg post,
        i < 2 /\ new = pre ++ seg ++ post /\ episode i seg t.
Proof.
  split; [exact demo_alive_w1|].
  apply (train_returns_true_rewards
           2 Demo.env_reset Demo.env_step Demo.learn Demo.self 0 demo_w1
           (snd (demo_train 7%Z tt demo_w1)) 7%Z tt).
  - exact demo_alive_w1.
  - vm_compute. reflexivity.
Defined.

(** C2 on the instance, after two calls of [train], a pop and a policy
    access. *)
Lemma wrapping_order_fixed_witness :
  demo_init = (Ok Demo.self, demo_w1) /\
  exists v,
    alg_env (algo Demo.w0) = Some v /\
    lookup (heap Demo.w0) (buffering_wrapper Demo.self) = None /\
    lookup (heap Demo.w0) (venv Demo.self) = None /\
    wrapping Demo.self v
             (demo_exec_all [OpTrain 7%Z tt; OpPop; OpPolicy; OpTrain 3%Z tt]
                            demo_w1).
Proof.
  split; [reflexivity|].
  apply (wrapping_order_fixed 2 Demo.env_reset Demo.env_step Demo.learn
                              (IsRewardFn Demo.hundred)).
  reflexivity.
Defined.

(** C5 on the instance. *)
Lemma train_three_steps_witness :
  demo_alive demo_w1 /\
  exists r1 w1,
    demo_reset demo_w1 = (r1, w1) /\
    match r1 with
    | Raise e => demo_train 7%Z tt demo_w1 = (Raise e, w1)
    | Ok obs =>
      queued Demo.self w1 = [] /\
      running Demo.self w1 = map (fun i => start (obs i)) (seq 0 2) /\
      algo w1 = algo demo_w1 /\
      exists r2 w2,
        run 2 Demo.env_reset Demo.env_step
            (Demo.learn (alg_policy (algo demo_w1))
                        (alg_state (algo demo_w1)) 7%Z tt) w1 = (r2, w2) /\
        match r2 with
        | Raise e => demo_train 7%Z tt demo_w1 = (Raise e, w2)
        | Ok _ =>
          demo_train 7%Z tt demo_w1
          = (Ok (queued Demo.self w2), snd (_pop_trajectories Demo.self w2)) /\
          queued Demo.self (snd (_pop_trajectories Demo.self w2)) = [] /\
          Forall (fun t => next_id Demo.self demo_w1 <= traj_id t)
                 (queued Demo.self w2)
        end
    end.
Proof.
  split; [exact demo_alive_w1|].
  apply (train_three_steps
           2 Demo.env_reset Demo.env_step Demo.learn Demo.self 0 demo_w1
           7%Z tt).
  exact demo_alive_w1.
Defined.

(** C6 on the instance: no environment set, and an environment that is not
    vectorized. *)
Lemma init_requires_vec_env_witness :
  __init__ (IsRewardFn Demo.hundred) Demo.w_unset
  = (Raise (ValueError "The environment for the agent algorithm must be set."),
     Demo.w_unset) /\
  __init__ (IsRewardNet {| predict := Demo.hundred |}) Demo.w_single
  = (Raise (ValueError "The environment for the agent algorithm must be set."),
     Demo.w_single).
Proof.
  split; apply init_requires_vec_env; reflexivity.
Defined.

(** C7 on the instance: the algorithm raises after two steps, when one
    episode has ended; that trajectory is still there to pop. *)
Lemma learn_error_propagates_witness :
  alive 2 Demo.env_reset Demo.env_step Demo.learn_fails Demo.self 0 demo_w1 /\
  train 2 Demo.env_reset Demo.env_step Demo.learn_fails Demo.self 7%Z tt
        demo_w1
  = (Raise (Exn "RuntimeError" "nan"),
     snd (algorithm_learn 2 Demo.env_reset Demo.env_step Demo.learn_fails
                          7%Z tt (snd (demo_reset demo_w1)))) /\
  length (value_or []
            (fst (_pop_trajectories
                    Demo.self
                    (snd (algorithm_learn
                            2 Demo.env_reset Demo.env_step Demo.learn_fails
                            7%Z tt (snd (demo_reset demo_w1))))))) = 1.
Proof.
  assert (Ha : alive 2 Demo.env_reset Demo.env_step Demo.learn_fails
                     Demo.self 0 demo_w1)
    by (exists (IsRewardFn Demo.hundred), Demo.w0, []; repeat split).
  split; [exact Ha|].
  destruct (learn_error_propagates
              2 Demo.env_reset Demo.env_step Demo.learn_fails Demo.self 0
              demo_w1 (snd (demo_reset demo_w1))
              (snd (algorithm_learn
                      2 Demo.env_reset Demo.env_step Demo.learn_fails
                      7%Z tt (snd (demo_reset demo_w1))))
              7%Z tt (fun _ => 0) (Exn "RuntimeError" "nan") Ha
              eq_refl eq_refl) as (Htrain & _ & _).
  split; [exact Htrain|]. vm_compute. reflexivity.
Defined.

(** C9 on the instance. *)
Lemma policy_read_only_witness :
  demo_init = (Ok Demo.self, demo_w1) /\
  alg_policy (algo demo_w1) = alg_policy (algo Demo.w0) /\
  policy Demo.self (demo_exec_all [OpTrain 7%Z tt] demo_w1)
  = (Ok (alg_policy (algo (demo_exec_all [OpTrain 7%Z tt] demo_w1))),
     demo_exec_all [OpTrain 7%Z tt] demo_w1) /\
  exec 2 Demo.env_reset Demo.env_step Demo.learn Demo.self OpPolicy
       (demo_exec_all [OpTrain 7%Z tt] demo_w1)
  = demo_exec_all [OpTrain 7%Z tt] demo_w1.
Proof.
  split; [reflexivity|].
  apply (policy_read_only 2 Demo.env_reset Demo.env_step Demo.learn
                          (IsRewardFn Demo.hundred)).
  reflexivity.
Defined.

(** C10 on the instance: a reward function that raises on every call. *)
Lemma init_never_evaluates_reward_witness :
  isinstance_VecEnv (heap Demo.w0) (alg_env (algo Demo.w0)) = Some 0 /\
  exists self w',
    __init__ (IsRewardFn Demo.broken) Demo.w0 = (Ok self, w') /\
    reward_wrapper_of (heap w') (venv self)
    = Some (rw_new (buffering_wrapper self) (bound (IsRewardFn Demo.broken))) /\
    reward_calls self w' = 0 /\
    (forall l, l < length (heap Demo.w0) ->
               lookup (heap w') l = lookup (heap Demo.w0) l) /\
    (forall r w1,
        on_store (fun st => venv_reset 2 Demo.env_reset st (venv self)) w'
        = (r, w1) ->
        reward_calls self w1 = 0).
Proof.
  split; [reflexivity|].
  apply (init_never_evaluates_reward 2 Demo.env_reset
                                     (IsRewardFn Demo.broken) Demo.w0 0).
  reflexivity.
Defined.

(** On the instance with the environment whose reset raises. *)
Lemma train_reset_failure_witness :
  alive 2 Demo.env_reset_fails Demo.env_step Demo.learn Demo.self 0 demo_w1 /\
  on_store (Policy:=nat) (AlgSt:=unit)
           (fun st => venv_reset 2 Demo.env_reset_fails st (venv Demo.self))
           demo_w1
  = (Raise (Exn "RuntimeError" "reset"), demo_w1) /\
  train 2 Demo.env_reset_fails Demo.env_step Demo.learn Demo.self 7%Z tt
        demo_w1
  = (Raise (Exn "RuntimeError" "reset"), demo_w1).
Proof.
  assert (Ha : alive 2 Demo.env_reset_fails Demo.env_step Demo.learn
                     Demo.self 0 demo_w1)
    by (exists (IsRewardFn Demo.hundred), Demo.w0, []; repeat split).
  split; [exact Ha|]. split; [reflexivity|].
  apply (train_reset_failure
           2 Demo.env_reset_fails Demo.env_step Demo.learn Demo.self 0
           demo_w1 demo_w1 7%Z tt (Exn "RuntimeError" "reset") Ha).
  reflexivity.
Defined.

(** On the instance after a call of [train] in which the algorithm raised
    with one trajectory queued. *)
Lemma pop_twice_witness :
  alive 2 Demo.env_reset Demo.env_step Demo.learn_fails Demo.self 0
        (exec_all 2 Demo.env_reset Demo.env_step Demo.learn_fails Demo.self
                  [OpTrain 7%Z tt] demo_w1) /\
  length (queued Demo.self
                 (exec_all 2 Demo.env_reset Demo.env_step Demo.learn_fails
                           Demo.self [OpTrain 7%Z tt] demo_w1)) = 1 /\
  exists w1,
    _pop_trajectories
      Demo.self
      (exec_all 2 Demo.env_reset Demo.env_step Demo.learn_fails Demo.self
                [OpTrain 7%Z tt] demo_w1)
    = (Ok (queued Demo.self
                  (exec_all 2 Demo.env_reset Demo.env_step Demo.learn_fails
                            Demo.self [OpTrain 7%Z tt] demo_w1)), w1) /\
    _pop_trajectories Demo.self w1 = (Ok [], w1).
Proof.
  assert (Ha : alive 2 Demo.env_reset Demo.env_step Demo.learn_fails
                     Demo.self 0
                     (exec_all 2 Demo.env_reset Demo.env_step
                               Demo.learn_fails Demo.self
                               [OpTrain 7%Z tt] demo_w1))
    by (exists (IsRewardFn Demo.hundred), Demo.w0, [OpTrain 7%Z tt];
        repeat split).
  split; [exact Ha|]. split; [vm_compute; reflexivity|].
  destruct (pop_twice 2 Demo.env_reset Demo.env_step Demo.learn_fails
                      Demo.self 0 _ Ha) as (w1 & H1 & H2 & _).
  exists w1. split; [exact H1|exact H2].
Defined.

(** On the instance, after seven steps of training. *)
Lemma pop_after_train_is_empty_witness :
  demo_alive demo_w1 /\
  exists w'',
    _pop_trajectories Demo.self (snd (demo_train 7%Z tt demo_w1))
    = (Ok [], w'') /\
    algo w'' = algo (snd (demo_train 7%Z tt demo_w1)).
Proof.
  split; [exact demo_alive_w1|].
  apply (pop_after_train_is_empty
           2 Demo.env_reset Demo.env_step Demo.learn Demo.self 0 demo_w1
           (snd (demo_train 7%Z tt demo_w1)) 7%Z tt
           (value_or [] (fst (demo_train 7%Z tt demo_w1)))).
  - exact demo_alive_w1.
  - vm_compute. reflexivity.
Defined.





(** C8 on the instance: the model predicts 50 + 50 and the function pays
    100; after a call of [train] with four steps the two algorithms have
    received the same rewards, 100 for each step, and a further call
    returns the same two trajectories to both. *)
Lemma reward_net_like_reward_fn_witness :
  (forall obs acts next_obs dones,
      predict Demo.net obs acts next_obs dones
      = Demo.hundred obs acts next_obs dones) /\
  demo_net_init = (Ok Demo.self_net, snd demo_net_init) /\
  demo_init = (Ok Demo.self, demo_w1) /\
  column (fun _ out => so_rews out 0)
         (hist_of (heap (exec_all 2 Demo.env_reset Demo.env_step Demo.learn
                                  Demo.self_net [OpTrain 4%Z tt]
                                  (snd demo_net_init)))
                  (venv Demo.self_net))
  = [100; 100; 100; 100]%Z /\
  length (value_or
            []
            (fst (train 2 Demo.env_reset Demo.env_step Demo.learn
                        Demo.self_net 5%Z tt
                        (exec_all 2 Demo.env_reset Demo.env_step Demo.learn
                                  Demo.self_net [OpTrain 4%Z tt]
                                  (snd demo_net_init))))) = 3 /\
  (exists rw1 rw2,
      reward_wrapper_of
        (heap (exec_all 2 Demo.env_reset Demo.env_step Demo.learn
                        Demo.self_net [OpTrain 4%Z tt] (snd demo_net_init)))
        (venv Demo.self_net)
      = Some rw1 /\
      reward_wrapper_of
        (heap (demo_exec_all [OpTrain 4%Z tt] demo_w1)) (venv Demo.self)
      = Some rw2 /\
      rw_reward_fn rw1 = predict Demo.net /\
      rw_reward_fn rw2 = Demo.hundred /\
      rw_old_obs rw1 = rw_old_obs rw2 /\
      forall acts out,
        fst (rw_on_step (Info:=unit) rw1 acts out)
        = fst (rw_on_step rw2 acts out)) /\
  hist_of (heap (exec_all 2 Demo.env_reset Demo.env_step Demo.learn
                          Demo.self_net [OpTrain 4%Z tt]
                          (snd demo_net_init)))
          (venv Demo.self_net)
  = hist_of (heap (demo_exec_all [OpTrain 4%Z tt] demo_w1)) (venv Demo.self)
  /\
  fst (train 2 Demo.env_reset Demo.env_step Demo.learn Demo.self_net 5%Z tt
             (exec_all 2 Demo.env_reset Demo.env_step Demo.learn
                       Demo.self_net [OpTrain 4%Z tt] (snd demo_net_init)))
  = fst (demo_train 5%Z tt (demo_exec_all [OpTrain 4%Z tt] demo_w1)).
Proof.
  split; [intros; reflexivity|]. split; [reflexivity|].
  split; [reflexivity|]. split; [vm_compute; reflexivity|].
  split; [vm_compute; reflexivity|].
  destruct (reward_net_like_reward_fn
              2 Demo.env_reset Demo.env_step Demo.learn
              Demo.net Demo.hundred Demo.w0 (snd demo_net_init) demo_w1
              Demo.self_net Demo.self [OpTrain 4%Z tt] 5%Z tt)
    as (_ & _ & _ & Hrw & Hhist & Htrain).
  - intros; reflexivity.
  - reflexivity.
  - reflexivity.
  - split; [exact Hrw|]. split; [exact Hhist|exact Htrain].
Defined.

(** Another trainer on the instance, after seven steps of training with the
    first; its reward function raises on every call. *)
Lemma second_trainer_stacks_witness :
  demo_alive (demo_exec_all [OpTrain 7%Z tt] demo_w1) /\
  exists self2 w2,
    __init__ (IsRewardFn Demo.broken) (demo_exec_all [OpTrain 7%Z tt] demo_w1)
    = (Ok self2, w2) /\
    wrapping self2 (venv Demo.self) w2 /\
    venv self2 <> venv Demo.self /\
    buffering_wrapper self2 <> buffering_wrapper Demo.self /\
    buffering_wrapper self2 <> venv Demo.self /\
    alg_env (algo w2) <> Some (venv Demo.self).
Proof.
  assert (Ha : demo_alive (demo_exec_all [OpTrain 7%Z tt] demo_w1))
    by (exists (IsRewardFn Demo.hundred), Demo.w0, [OpTrain 7%Z tt];
        repeat split).
  split; [exact Ha|].
  apply (second_trainer_stacks
           2 Demo.env_reset Demo.env_step Demo.learn
           (IsRewardFn Demo.broken) Demo.self 0 _ Ha).
Defined.

(** On the instance, where the environment pays the step number and the
    reward function pays 100: the algorithm has received 100 for each of
    the three steps of sub-environment 0, which paid 0, 1 and 2. *)
Lemma train_feeds_substituted_rewards_witness :
  demo_alive demo_w1 /\
  column (fun _ out => so_rews out 0)
         (hist_of (heap (snd (demo_train 3%Z tt demo_w1))) (venv Demo.self))
  = [100; 100; 100]%Z /\
  column (fun _ out => so_rews out 0)
         (hist_of (heap (snd (demo_train 3%Z tt demo_w1))) 0)
  = [0; 1; 2]%Z /\
  exists rw newv,
    reward_wrapper_of (heap demo_w1) (venv Demo.self) = Some rw /\
    hist_of (heap (snd (demo_train 3%Z tt demo_w1))) 0
    = hist_of (heap demo_w1) 0 ++ newv /\
    hist_of (heap (snd (demo_train 3%Z tt demo_w1))) (venv Demo.self)
    = hist_of (heap demo_w1) (venv Demo.self)
      ++ seen (reward_fn Demo.self) (rw_old_obs rw) newv.
Proof.
  split; [exact demo_alive_w1|].
  split; [vm_compute; reflexivity|]. split; [vm_compute; reflexivity|].
  apply (train_feeds_substituted_rewards
           2 Demo.env_reset Demo.env_step Demo.learn Demo.self 0 demo_w1
           3%Z tt).
  exact demo_alive_w1.
Defined.
